(** * The CSV-to-database batch processor of [advanced_data_processor.py]

    A shallow embedding of the [DataProcessor] class and of [main], with the
    Python built-ins the class relies on ([float], [str], [str.strip],
    [str.title], dictionaries, exceptions).

    Conventions of the model.
    - Python [str] values are Rocq strings over 7-bit ASCII: the built-ins
      below ([str.strip], [str.title], [float] of a text) follow CPython on
      that range and say nothing of a text with other characters.
    - Python [int] is [Z]; Python [float] is IEEE-754 binary64, represented by
      [spec_float] with 53 bits of precision.
    - Exceptions are the subclasses of [Exception]; a computation that may
      raise returns a [result].
    - pandas and SQLAlchemy are outside the module. A file is given by the
      rows that the loop of [process_batch] receives from it in a run, that
      is, what [pd.read_csv] reads at the chunk size of the run, each row as
      [iterrows] and [to_dict] hand it over (pandas types the cells chunk by
      chunk and row by row, so these rows belong to one batch size). The
      database is a state that a transaction changes and that may make it
      fail; [create_engine] may raise.
    - A method is looked up on [self]: where a property is about a subclass
      that overrides [process_batch], the method is a parameter of the
      run.
    - The thread pool is given by a schedule: the order in which the batches
      run, each transaction being one step, and the order in which the
      futures are handed back.
    - Logging is left out, except in the constructor, where the order of the
      check and of the first effects is a property of interest. *)

From Stdlib Require Import ZArith Ascii String List Bool Lia.
From Stdlib Require Import Floats.SpecFloat.
From stdpp Require Import base gmap strings list pretty.
From Equations Require Import Equations.

Local Open Scope string_scope.
Local Open Scope list_scope.
Local Open Scope Z_scope.

(** ** Exceptions and fallible computations *)

(** The exception classes that occur in the module. [LibraryError] stands for
    any exception class of pandas or SQLAlchemy (parser errors, operational
    errors, URL argument errors): a subclass of [Exception] that is none of
    the others. *)
Inductive exc_class : Set :=
  | ValueError
  | TypeError
  | OverflowError
  | KeyError
  | FileProcessingError
  | DatabaseError
  | LibraryError.

(** An exception instance; [exc_msg] is what [str(e)] gives. *)
Record exc : Set := Exc { exc_cls : exc_class; exc_msg : string }.

Inductive result (A : Type) : Type :=
  | Ok (a : A)
  | Raise (e : exc).
Arguments Ok {A} a.
Arguments Raise {A} e.

Global Instance result_ret : MRet result := fun A a => Ok a.

Global Instance result_bind : MBind result := fun A B k m =>
  match m with
  | Ok a => k a
  | Raise e => Raise e
  end.

Definition exc_class_eqb (a b : exc_class) : bool :=
  match a, b with
  | ValueError, ValueError | TypeError, TypeError
  | OverflowError, OverflowError | KeyError, KeyError
  | FileProcessingError, FileProcessingError
  | DatabaseError, DatabaseError | LibraryError, LibraryError => true
  | _, _ => false
  end.

(** ** Python values *)

Definition prec : Z := 53.
Definition emax : Z := 1024.

Inductive pyval : Set :=
  | VNone
  | VBool (b : bool)
  | VInt (z : Z)
  | VFloat (f : spec_float)
  | VStr (s : string).

(** [Dict[str, Any]]: a record (one row) maps field names to values. *)
Abbreviation pydict := (gmap string pyval).

(** ** Characters *)

Definition code (c : ascii) : nat := nat_of_ascii c.

Definition is_digit (c : ascii) : bool :=
  (Nat.leb 48 (code c) && Nat.leb (code c) 57)%bool.

Definition digit_value (c : ascii) : Z := Z.of_nat (code c) - 48.

Definition is_upper (c : ascii) : bool :=
  (Nat.leb 65 (code c) && Nat.leb (code c) 90)%bool.

Definition is_lower (c : ascii) : bool :=
  (Nat.leb 97 (code c) && Nat.leb (code c) 122)%bool.

(** [str.isalpha] on ASCII, which is also "cased" there. *)
Definition is_cased (c : ascii) : bool := (is_upper c || is_lower c)%bool.

Definition to_upper (c : ascii) : ascii :=
  if is_lower c then ascii_of_nat (code c - 32) else c.

Definition to_lower (c : ascii) : ascii :=
  if is_upper c then ascii_of_nat (code c + 32) else c.

(** C's [Py_ISSPACE]: tab, newline, vertical tab, form feed, carriage return
    and the space. *)
Definition Py_ISSPACE (c : ascii) : bool :=
  (Nat.leb 9 (code c) && Nat.leb (code c) 13 || Nat.eqb (code c) 32)%bool.

(** [str.isspace] on ASCII: [Py_ISSPACE] and the separators 0x1c to 0x1f. *)
Definition is_space (c : ascii) : bool :=
  (Py_ISSPACE c || Nat.leb 28 (code c) && Nat.leb (code c) 31)%bool.

Fixpoint drop_while {A : Type} (p : A -> bool) (l : list A) : list A :=
  match l with
  | [] => []
  | x :: l' => if p x then drop_while p l' else l
  end.

Definition strip_with (p : ascii -> bool) (l : list ascii) : list ascii :=
  rev (drop_while p (rev (drop_while p l))).

(** [str.strip()], on 7-bit ASCII text *)
Definition py_strip (s : string) : string :=
  string_of_list_ascii (strip_with is_space (list_ascii_of_string s)).

(** [str.title()], on 7-bit ASCII text: the first cased character after an
    uncased one is upper-cased, the other cased characters are
    lower-cased. *)
Fixpoint title_go (previous_is_cased : bool) (l : list ascii) : list ascii :=
  match l with
  | [] => []
  | c :: l' =>
      (if previous_is_cased then to_lower c else to_upper c)
        :: title_go (is_cased c) l'
  end.

Definition py_title (s : string) : string :=
  string_of_list_ascii (title_go false (list_ascii_of_string s)).

(** ** [float(str)] *)

(** [_Py_string_to_number_with_underscores]: an underscore is allowed only
    between two digits, and is dropped. *)
Fixpoint strip_underscores (prev : ascii) (l : list ascii)
  : option (list ascii) :=
  match l with
  | [] => if Ascii.eqb prev "_" then None else Some []
  | c :: l' =>
      if Ascii.eqb c "_" then
        if is_digit prev then strip_underscores c l' else None
      else if (Ascii.eqb prev "_" && negb (is_digit c))%bool then None
      else cons c <$> strip_underscores c l'
  end.

Fixpoint span_digits (l : list ascii) : list ascii * list ascii :=
  match l with
  | [] => ([], [])
  | c :: l' =>
      if is_digit c then
        let '(ds, r) := span_digits l' in (c :: ds, r)
      else ([], l)
  end.

Definition digits_to_Z (ds : list ascii) : Z :=
  fold_left (fun acc c => 10 * acc + digit_value c) ds 0.

Definition is_nil {A : Type} (l : list A) : bool :=
  match l with [] => true | _ => false end.

Definition split_sign (l : list ascii) : bool * list ascii :=
  match l with
  | c :: l' =>
      if Ascii.eqb c "-" then (true, l')
      else if Ascii.eqb c "+" then (false, l')
      else (false, l)
  | [] => (false, [])
  end.

(** The exponent part, after the [e]: an optional sign and at least one
    digit, up to the end of the text. *)
Definition parse_exponent (l : list ascii) : option Z :=
  let '(neg, l1) := split_sign l in
  let '(ds, r) := span_digits l1 in
  if (is_nil ds || negb (is_nil r))%bool then None
  else Some (if neg then - digits_to_Z ds else digits_to_Z ds).

(** [digits [. digits] [e exponent]] or [. digits [e exponent]], giving the
    decimal mantissa [M] and exponent [E] of the number [M * 10^E]. *)
Definition parse_decimal (l : list ascii) : option (Z * Z) :=
  let '(ip, r1) := span_digits l in
  let '(fp, r2) :=
    match r1 with
    | c :: r => if Ascii.eqb c "." then span_digits r else ([], r1)
    | [] => ([], r1)
    end in
  if (is_nil ip && is_nil fp)%bool then None
  else
    let M := digits_to_Z (ip ++ fp) in
    let scale := Z.of_nat (length fp) in
    match r2 with
    | [] => Some (M, - scale)
    | c :: r3 =>
        if (Ascii.eqb c "e" || Ascii.eqb c "E")%bool then
          e ← parse_exponent r3; Some (M, e - scale)
        else None
    end.

(** The binary64 nearest to [M * 10^E] (ties to even), as [strtod] computes
    it; an overflow gives an infinity. *)
Definition decimal_to_double (neg : bool) (M E : Z) : spec_float :=
  match M with
  | Zpos m =>
      if 0 <=? E then binary_round prec emax neg (Z.to_pos (M * 10 ^ E)) 0
      else SFdiv prec emax (S754_finite neg m 0)
                 (S754_finite false (Z.to_pos (10 ^ (- E))) 0)
  | _ => S754_zero neg
  end.

Definition lower_string (l : list ascii) : string :=
  string_of_list_ascii (map to_lower l).

(** [_Py_parse_inf_or_nan], after the sign. *)
Definition parse_inf_or_nan (neg : bool) (l : list ascii)
  : option spec_float :=
  let w := lower_string l in
  if (String.eqb w "inf" || String.eqb w "infinity")%bool
  then Some (S754_infinity neg)
  else if String.eqb w "nan" then Some S754_nan
  else None.

(** [float_from_string_inner]: surrounding white space is skipped, then the
    whole text must be a number, an infinity or a nan. *)
Definition float_from_string_inner (l : list ascii) : option spec_float :=
  let '(neg, body) := split_sign (strip_with Py_ISSPACE l) in
  match parse_decimal body with
  | Some (M, E) => Some (decimal_to_double neg M E)
  | None => parse_inf_or_nan neg body
  end.

Definition float_of_string (s : string) : option spec_float :=
  l ← strip_underscores "000" (list_ascii_of_string s);
  float_from_string_inner l.

(** ** [repr(str)], used in the message of [float]'s [ValueError] *)

Definition hex_digit (n : nat) : ascii :=
  nth n (list_ascii_of_string "0123456789abcdef") "0"%char.

Definition repr_char (quote c : ascii) : list ascii :=
  if (Ascii.eqb c quote || Ascii.eqb c "\")%bool then ["\"%char; c]
  else if Ascii.eqb c "009" then ["\"%char; "t"%char]
  else if Ascii.eqb c "010" then ["\"%char; "n"%char]
  else if Ascii.eqb c "013" then ["\"%char; "r"%char]
  else if (Nat.ltb (code c) 32 || Nat.leb 127 (code c))%bool then
    ["\"%char; "x"%char;
     hex_digit (Nat.div (code c) 16); hex_digit (Nat.modulo (code c) 16)]
  else [c].

Definition has_char (c : ascii) (l : list ascii) : bool :=
  existsb (Ascii.eqb c) l.

(** The double-quote character, code 34. *)
Definition double_quote : ascii := ascii_of_nat 34.

Definition py_repr_str (s : string) : string :=
  let l := list_ascii_of_string s in
  let quote :=
    if (has_char "'" l && negb (has_char double_quote l))%bool
    then double_quote else "'"%char in
  string_of_list_ascii
    (quote :: concat (map (repr_char quote) l) ++ [quote]).

(** ** [float(x)] *)

(** [float(int)]: the nearest binary64 (ties to even), or [OverflowError]
    beyond the range of a double. *)
Definition float_of_int (z : Z) : result spec_float :=
  match binary_normalize prec emax z 0 false with
  | S754_infinity _ =>
      Raise (Exc OverflowError "int too large to convert to float")
  | f => Ok f
  end.

Definition py_float (v : pyval) : result spec_float :=
  match v with
  | VNone =>
      Raise (Exc TypeError
        "float() argument must be a string or a real number, not 'NoneType'")
  | VBool b => float_of_int (if b then 1 else 0)
  | VInt z => float_of_int z
  | VFloat f => Ok f
  | VStr s =>
      match float_of_string s with
      | Some f => Ok f
      | None =>
          Raise (Exc ValueError
            ("could not convert string to float: " +:+ py_repr_str s))
      end
  end.

(** ** [repr(float)], which is also [str(float)] *)

Definition sf_eqb (x y : spec_float) : bool :=
  match x, y with
  | S754_zero a, S754_zero b => Bool.eqb a b
  | S754_infinity a, S754_infinity b => Bool.eqb a b
  | S754_nan, S754_nan => true
  | S754_finite a m e, S754_finite b n f =>
      (Bool.eqb a b && Pos.eqb m n && Z.eqb e f)%bool
  | _, _ => false
  end.

(** The positive number [m * 2^e] as the fraction [sf_num m e / sf_den e]. *)
Definition sf_num (m : positive) (e : Z) : Z :=
  if 0 <=? e then Zpos m * 2 ^ e else Zpos m.

Definition sf_den (e : Z) : Z := if 0 <=? e then 1 else 2 ^ (- e).

(** [floor (num / den / 10^k)] *)
Definition scaled_floor (num den k : Z) : Z :=
  if 0 <=? k then num / (den * 10 ^ k) else (num * 10 ^ (- k)) / den.

(** The least [j >= j0] with [num * 10^j >= den], searched over [fuel] steps. *)
Fixpoint first_scale (fuel : nat) (num den j : Z) : Z :=
  match fuel with
  | O => j
  | S fuel' =>
      if den <=? num * 10 ^ j then j else first_scale fuel' num den (j + 1)
  end.

(** [floor (log10 (num / den))] for a positive fraction. *)
Definition log10_floor (num den : Z) : Z :=
  if den <=? num then
    Z.of_nat (String.length (pretty (num / den))) - 1
  else - first_scale (S (Z.to_nat (Z.log2 den))) num den 1.

(** The comparison of [num / den] with [(2 * d + 1) * 10^k / 2], the middle
    of the decimals [d * 10^k] and [(d + 1) * 10^k]. *)
Definition compare_to_middle (num den d k : Z) : comparison :=
  if 0 <=? k then 2 * num ?= (2 * d + 1) * 10 ^ k * den
  else 2 * num * 10 ^ (- k) ?= (2 * d + 1) * den.

(** The decimal with [n] significant digits that reads back as [x], if there
    is one: the nearer of the two [n]-digit neighbours of [x]. *)
Definition try_digits (x : spec_float) (num den p n : Z) : option (Z * Z) :=
  let k := p - n + 1 in
  let lo := scaled_floor num den k in
  let ok d := sf_eqb (decimal_to_double false d k) x in
  match ok lo, ok (lo + 1) with
  | true, true =>
      match compare_to_middle num den lo k with
      | Lt => Some (lo, k)
      | Gt => Some (lo + 1, k)
      | Eq => Some (if Z.even lo then lo else lo + 1, k)
      end
  | true, false => Some (lo, k)
  | false, true => Some (lo + 1, k)
  | false, false => None
  end.

(** The shortest decimal [d * 10^k] that reads back as the positive double
    [m * 2^e]; 17 digits always suffice. *)
Definition shortest_decimal (m : positive) (e : Z) : Z * Z :=
  let x := binary_round prec emax false m e in
  let num := sf_num m e in
  let den := sf_den e in
  let p := log10_floor num den in
  default (scaled_floor num den (p - 16), p - 16)
          (head (omap (try_digits x num den p) (seqZ 1 17))).

Definition strip_trailing_zeros (ds : list ascii) : list ascii :=
  rev (drop_while (Ascii.eqb "0") (rev ds)).

Definition zeros (n : Z) : list ascii := replicate (Z.to_nat n) "0"%char.

Definition exponent_text (x : Z) : list ascii :=
  let ds := list_ascii_of_string (pretty (Z.abs x)) in
  (if x <? 0 then "-"%char else "+"%char)
    :: (if Nat.ltb (length ds) 2 then "0"%char :: ds else ds).

(** [format_float_short] for the [repr] style: digits [ds] with the decimal
    point after [decpt] of them; exponent notation when [decpt <= -4] or
    [decpt > 16]; otherwise positional, ending in [.0] for an integer. *)
Definition format_repr (ds : list ascii) (decpt : Z) : list ascii :=
  let nd := Z.of_nat (length ds) in
  if ((decpt <=? -4) || (16 <? decpt))%bool then
    match ds with
    | [] => []
    | d1 :: rest =>
        d1 :: (if is_nil rest then [] else "."%char :: rest)
           ++ "e"%char :: exponent_text (decpt - 1)
    end
  else if decpt <=? 0 then
    "0"%char :: "."%char :: zeros (- decpt) ++ ds
  else if decpt <? nd then
    take (Z.to_nat decpt) ds ++ "."%char :: drop (Z.to_nat decpt) ds
  else ds ++ zeros (decpt - nd) ++ [ "."%char; "0"%char ].

Definition float_repr (f : spec_float) : string :=
  match f with
  | S754_nan => "nan"
  | S754_infinity s => if s then "-inf" else "inf"
  | S754_zero s => if s then "-0.0" else "0.0"
  | S754_finite s m e =>
      let '(d, k) := shortest_decimal m e in
      let all := list_ascii_of_string (pretty d) in
      let ds := strip_trailing_zeros all in
      let decpt := Z.of_nat (length all) + k in
      (if s then "-" else EmptyString) +:+ string_of_list_ascii (format_repr ds decpt)
  end.

(** ** [str(x)] *)

Definition py_str (v : pyval) : string :=
  match v with
  | VNone => "None"
  | VBool b => if b then "True" else "False"
  | VInt z => pretty z
  | VFloat f => float_repr f
  | VStr s => s
  end.

(** ** Dictionaries and [try]/[except] *)

(** [d[key]] *)
Definition py_getitem (d : pydict) (key : string) : result pyval :=
  match d !! key with
  | Some v => Ok v
  | None => Raise (Exc KeyError (py_repr_str key))
  end.

(** [key in d] *)
Definition py_in (key : string) (d : pydict) : bool :=
  bool_decide (is_Some (d !! key)).

(** [try: m except (classes): handler]: the handler runs for an exception of
    one of the listed classes, any other exception goes on. *)
Definition try_except {A : Type} (m : result A) (classes : list exc_class)
    (handler : exc -> result A) : result A :=
  match m with
  | Ok a => Ok a
  | Raise e =>
      if existsb (exc_class_eqb (exc_cls e)) classes then handler e
      else Raise e
  end.

(** ** The data of the module *)

(** A [DataFrame] chunk, as [iterrows] walks it: the rows in order, each with
    its index label. *)
Abbreviation DataFrame := (list (Z * pydict)).

(** The [ProcessingResult] dataclass. *)
Record ProcessingResult : Set := mkResult {
  success : bool;
  records_processed : Z;
  records_failed : Z;
  errors : list string
}.

(** What [pd.read_csv] makes of a file in a run: its data rows as the loop
    of [process_batch] receives them (the cells as pandas types them at the
    chunk size of the run and as [iterrows] and [to_dict] hand them over), or
    the exception the parser raises. *)
Inductive csv_file : Set :=
  | CsvRows (rows : list pydict)
  | CsvError (e : exc).

(** The files by path; a path that is not a key does not exist. *)
Abbreviation filesystem := (gmap string csv_file).

(** What the constructor does to the outside, in order. *)
Inductive event : Set :=
  | CreateEngine (url : string)
  | LogInfo (msg : string).

(** The order in which the pool's workers run the submitted batches (each
    batch's transaction taken as one step), and the order in which
    [as_completed] hands the futures back. *)
Record schedule : Set := mkSchedule {
  run_order : list nat;
  completion_order : list nat
}.

(** The futures of the submitted batches, by batch number: what
    [future.result()] returns or raises. *)
Abbreviation futures := (gmap nat (result ProcessingResult)).

(** ** [validate_record] and [process_record] *)

Definition required_fields : list string := ["id"; "name"; "value"].

Definition validate_record (record : pydict) : result bool :=
  if negb (forallb (fun field => py_in field record) required_fields)
  then Ok false
  else
    try_except
      (v ← py_getitem record "value"; _ ← py_float v; Ok true)
      [ValueError; TypeError]
      (fun _ => Ok false).

Definition process_record (record : pydict) : result pydict :=
  let processed := record in
  processed ←
    (if py_in "name" processed then
       name ← py_getitem processed "name";
       Ok (<["name" := VStr (py_title (py_strip (py_str name)))]> processed)
     else Ok processed);
  processed ←
    (if py_in "value" processed then
       value ← py_getitem processed "value";
       f ← py_float value;
       Ok (<["value" := VFloat f]> processed)
     else Ok processed);
  Ok (<["processed" := VBool true]> processed).

(** ** [read_csv_batches] *)

(** The chunks of [S n] rows that the reader yields from a non-empty input. *)
Equations? chunks_of {A : Type} (n : nat) (l : list A) : list (list A)
  by wf (length l) lt :=
  chunks_of n [] := [];
  chunks_of n (x :: l) := (x :: take n l) :: chunks_of n (drop n l).
Proof. rewrite length_drop. simpl. lia. Qed.

(** [pd.read_csv(path, chunksize=size)] read to the end: chunks of [size]
    rows, the last one shorter when the rows do not divide evenly; a file with
    a header and no row gives one empty chunk. The index labels number the
    rows of the whole file. The rows are those of the run at this chunk
    size: nothing is said of the same file read at another one. *)
Definition read_chunks (size : nat) (rows : list pydict) : list DataFrame :=
  let frame := imap (fun i row => (Z.of_nat i, row)) rows in
  match frame with
  | [] => [[]]
  | _ => chunks_of (Nat.pred size) frame
  end.

Definition pd_read_csv (file : csv_file) (chunksize : Z)
  : result (list DataFrame) :=
  if chunksize <=? 0 then
    Raise (Exc ValueError "'chunksize' must be an integer >=1")
  else
    match file with
    | CsvRows rows => Ok (read_chunks (Z.to_nat chunksize) rows)
    | CsvError e => Raise e
    end.

(** ** The [DataProcessor] class *)

Section DataProcessor.

(** SQLAlchemy and the database server are outside the module. [Engine] is
    what [create_engine] returns, unless it raises (an URL it cannot parse, a
    driver that is missing); [DB] is the state of the database; [execute e db
    batch] is the transaction of [store_batch] ([connect], [execute] of the
    upsert, [commit]): the new state, and the exception if one was raised. *)
Variable Engine : Type.
Variable DB : Type.
Variable create_engine : string -> result Engine.
Variable execute : Engine -> DB -> list pydict -> DB * option exc.

Record DataProcessor : Type := mkDataProcessor {
  db_url : string;
  batch_size : Z;
  max_workers : Z;
  engine : Engine
}.

(** [DataProcessor(db_url, batch_size=1000, max_workers=4)]: an argument left
    out is [None] here. The result comes with the events of the call. *)
Definition __init__ (db_url : string) (batch_size max_workers : option Z)
  : list event * result DataProcessor :=
  let batch_size := default 1000 batch_size in
  let max_workers := default 4 max_workers in
  match db_url with
  | EmptyString => ([], Raise (Exc ValueError "db_url cannot be empty"))
  | _ =>
      if batch_size <=? 0 then
        ([], Raise (Exc ValueError "batch_size must be positive"))
      else if max_workers <=? 0 then
        ([], Raise (Exc ValueError "max_workers must be positive"))
      else
        match create_engine db_url with
        | Raise e => ([CreateEngine db_url], Raise e)
        | Ok engine =>
            ([CreateEngine db_url;
              LogInfo ("DataProcessor initialized (batch_size="
                       +:+ pretty batch_size +:+ ", workers="
                       +:+ pretty max_workers +:+ ")")],
             Ok (mkDataProcessor db_url batch_size max_workers engine))
        end
  end.

(** [list(self.read_csv_batches(file_path))]: both callers read the generator
    to its end before they use a batch, so the model gives the batches it
    yields, or the exception it raises on the way. *)
Definition read_csv_batches (self : DataProcessor) (fs : filesystem)
    (file_path : string) : result (list DataFrame) :=
  match fs !! file_path with
  | None => Raise (Exc FileProcessingError ("File not found: " +:+ file_path))
  | Some file =>
      match pd_read_csv file (batch_size self) with
      | Ok chunks => Ok chunks
      | Raise e =>
          Raise (Exc FileProcessingError
                     ("Failed to read CSV: " +:+ exc_msg e))
      end
  end.

Definition store_batch (self : DataProcessor) (db : DB) (batch : list pydict)
  : DB * result Z :=
  match batch with
  | [] => (db, Ok 0)
  | _ =>
      match execute (engine self) db batch with
      | (db', None) => (db', Ok (Z.of_nat (length batch)))
      | (db', Some e) =>
          (db', Raise (Exc DatabaseError
                           ("Failed to store batch: " +:+ exc_msg e)))
      end
  end.

(** The local variables of [process_batch]. *)
Record batch_state : Set := mkState {
  n_processed : Z;
  n_failed : Z;
  messages : list string;
  valid_records : list pydict
}.

Definition record_failed (st : batch_state) (msg : string) : batch_state :=
  mkState (n_processed st) (n_failed st + 1) (messages st ++ [msg])
          (valid_records st).

(** One turn of [for idx, row in df.iterrows()], with its [try] and
    [except Exception]. *)
Definition process_row (st : batch_state) (row : Z * pydict) : batch_state :=
  let '(idx, record) := row in
  match validate_record record with
  | Ok false =>
      record_failed st ("Validation failed for record " +:+ pretty idx)
  | Ok true =>
      match process_record record with
      | Ok processed_record =>
          mkState (n_processed st + 1) (n_failed st) (messages st)
                  (valid_records st ++ [processed_record])
      | Raise e =>
          record_failed st
            ("Error processing record " +:+ pretty idx +:+ ": " +:+ exc_msg e)
      end
  | Raise e =>
      record_failed st
        ("Error processing record " +:+ pretty idx +:+ ": " +:+ exc_msg e)
  end.

Definition process_rows (df : DataFrame) : batch_state :=
  foldl process_row (mkState 0 0 [] []) df.

Definition batch_result (st : batch_state) : ProcessingResult :=
  mkResult (n_failed st =? 0) (n_processed st) (n_failed st) (messages st).

Definition process_batch (self : DataProcessor) (db : DB) (df : DataFrame)
  : DB * result ProcessingResult :=
  let st := process_rows df in
  match valid_records st with
  | [] => (db, Ok (batch_result st))
  | _ =>
      match store_batch self db (valid_records st) with
      | (db', Ok _) => (db', Ok (batch_result st))
      | (db', Raise e) =>
          match exc_cls e with
          | DatabaseError =>
              let n := Z.of_nat (length (valid_records st)) in
              (db', Ok (batch_result
                 (mkState (n_processed st - n) (n_failed st + n)
                    (messages st
                       ++ ["Database storage failed: " +:+ exc_msg e])
                    (valid_records st))))
          | _ => (db', Raise e)
          end
      end
  end.

(** The accumulators [total_processed], [total_failed] and [all_errors]. *)
Record totals : Set := mkTotals {
  total_processed : Z;
  total_failed : Z;
  all_errors : list string
}.

Definition add_result (t : totals) (result : ProcessingResult) : totals :=
  mkTotals (total_processed t + records_processed result)
           (total_failed t + records_failed result)
           (all_errors t ++ errors result).

Definition run_result (t : totals) : ProcessingResult :=
  mkResult (total_failed t =? 0) (total_processed t) (total_failed t)
           (all_errors t).

(** The loop of [process_file_sequential]: an exception of [process_batch]
    is not caught there. *)
Fixpoint sequential_loop (self : DataProcessor) (db : DB)
    (batches : list DataFrame) (t : totals) : DB * result totals :=
  match batches with
  | [] => (db, Ok t)
  | batch :: rest =>
      match process_batch self db batch with
      | (db', Ok result) => sequential_loop self db' rest (add_result t result)
      | (db', Raise e) => (db', Raise e)
      end
  end.

Definition process_file_sequential (self : DataProcessor) (fs : filesystem)
    (db : DB) (file_path : string) : DB * result ProcessingResult :=
  match read_csv_batches self fs file_path with
  | Raise e => (db, Raise e)
  | Ok batches =>
      match sequential_loop self db batches (mkTotals 0 0 []) with
      | (db', Ok t) => (db', Ok (run_result t))
      | (db', Raise e) => (db', Raise e)
      end
  end.

(** The workers run [process_batch] on the batches in the order [order]. *)
Fixpoint run_workers (self : DataProcessor) (batches : list DataFrame)
    (db : DB) (order : list nat) (done : futures) : DB * futures :=
  match order with
  | [] => (db, done)
  | i :: order' =>
      match batches !! i with
      | Some batch =>
          let '(db', outcome) := process_batch self db batch in
          run_workers self batches db' order' (<[i := outcome]> done)
      | None => run_workers self batches db order' done
      end
  end.

(** One turn of [for future in as_completed(future_to_batch)], with its
    [try] and [except Exception]. *)
Definition collect (done : futures) (t : totals) (batch_num : nat) : totals :=
  match done !! batch_num with
  | Some (Ok result) => add_result t result
  | Some (Raise e) =>
      mkTotals (total_processed t) (total_failed t)
        (all_errors t
           ++ ["Batch " +:+ pretty batch_num +:+ " error: " +:+ exc_msg e])
  | None => t
  end.

Definition process_file_parallel (self : DataProcessor) (fs : filesystem)
    (db : DB) (file_path : string) (pool : schedule)
  : DB * result ProcessingResult :=
  match read_csv_batches self fs file_path with
  | Raise e => (db, Raise e)
  | Ok batches =>
      let '(db', done) := run_workers self batches db (run_order pool) ∅ in
      (db', Ok (run_result
                  (foldl (collect done) (mkTotals 0 0 [])
                         (completion_order pool))))
  end.

(** A schedule of [n] batches in which every batch runs once and every
    future is handed back once, in any order. *)
Definition fair_schedule (n : nat) (pool : schedule) : Prop :=
  run_order pool ≡ₚ seq 0 n ∧ completion_order pool ≡ₚ seq 0 n.

(** A schedule that a pool of [workers] threads can produce on [n] batches:
    the batches leave the queue in the order of submission, one per free
    worker, so the batch that runs in position [p] has a number below
    [p + workers]. *)
Definition pool_schedule (workers : Z) (n : nat) (pool : schedule) : Prop :=
  fair_schedule n pool ∧
  ∀ (p i : nat),
    run_order pool !! p = Some i → Z.of_nat i < Z.of_nat p + workers.

(** ** [main] *)

(** What [main] sees of the process and of the machine. *)
Record World : Type := mkWorld {
  argv : list string;
  files : filesystem;
  environ : gmap string string;
  database : DB;
  thread_pool : schedule
}.

(** The body of the [try] in [main], up to the result of the run. *)
Definition main_run (w : World) (input_file db_url : string)
  : DB * result ProcessingResult :=
  match snd (__init__ db_url (Some 1000) (Some 4)) with
  | Raise e => (database w, Raise e)
  | Ok processor =>
      process_file_parallel processor (files w) (database w) input_file
                            (thread_pool w)
  end.

(** [main()]: the exit code, with the database it leaves. *)
Definition main (w : World) : DB * Z :=
  match argv w with
  | _ :: input_file :: _ =>
      if negb (bool_decide (is_Some (files w !! input_file))) then
        (database w, 1)
      else
        match environ w !! "DATABASE_URL" with
        | None | Some EmptyString => (database w, 1)
        | Some db_url =>
            match main_run w input_file db_url with
            | (db', Ok result) => (db', if success result then 0 else 1)
            | (db', Raise _) => (db', 1)
            end
        end
  | _ => (database w, 1)
  end.

End DataProcessor.

Arguments mkDataProcessor {Engine} db_url batch_size max_workers engine.
Arguments db_url {Engine} d.
Arguments batch_size {Engine} d.
Arguments max_workers {Engine} d.
Arguments engine {Engine} d.
Arguments __init__ {Engine} create_engine db_url batch_size max_workers.
Arguments read_csv_batches {Engine} self fs file_path.
Arguments store_batch {Engine DB} execute self db batch.
Arguments process_batch {Engine DB} execute self db df.
Arguments sequential_loop {Engine DB} execute self db batches t.
Arguments process_file_sequential {Engine DB} execute self fs db file_path.
Arguments run_workers {Engine DB} execute self batches db order done.
Arguments process_file_parallel {Engine DB} execute self fs db file_path pool.
Arguments mkWorld {DB} argv files environ database thread_pool.
Arguments argv {DB} w.
Arguments files {DB} w.
Arguments environ {DB} w.
Arguments database {DB} w.
Arguments thread_pool {DB} w.
Arguments main_run {Engine DB} create_engine execute w input_file db_url.
Arguments main {Engine DB} create_engine execute w.

(** ** The parallel run of a subclass *)

(** [executor.submit(self.process_batch, batch)] looks [process_batch] up on
    [self], so in a subclass that overrides it the workers run the override.
    [run_workers_with] and [process_file_parallel_with] are the workers and
    the run of [process_file_parallel] with the method as a parameter; the
    rest of the run is the inherited code. *)
Fixpoint run_workers_with {DB : Type}
    (method : DB -> DataFrame -> DB * result ProcessingResult)
    (batches : list DataFrame) (db : DB) (order : list nat) (done : futures)
  : DB * futures :=
  match order with
  | [] => (db, done)
  | i :: order' =>
      match batches !! i with
      | Some batch =>
          let '(db', outcome) := method db batch in
          run_workers_with method batches db' order' (<[i := outcome]> done)
      | None => run_workers_with method batches db order' done
      end
  end.

Definition process_file_parallel_with {Engine DB : Type}
    (method : DB -> DataFrame -> DB * result ProcessingResult)
    (self : DataProcessor Engine) (fs : filesystem) (db : DB)
    (file_path : string) (pool : schedule) : DB * result ProcessingResult :=
  match read_csv_batches self fs file_path with
  | Raise e => (db, Raise e)
  | Ok batches =>
      let '(db', done) :=
        run_workers_with method batches db (run_order pool) ∅ in
      (db', Ok (run_result
                  (foldl (collect done) (mkTotals 0 0 [])
                         (completion_order pool))))
  end.

(** ** Notions used to state the properties *)

Definition Zsum (l : list Z) : Z := foldr Z.add 0 l.

(** The result a future holds; a future that raised counts for nothing. *)
Definition returned (outcome : result ProcessingResult) : ProcessingResult :=
  match outcome with
  | Ok r => r
  | Raise _ => mkResult false 0 0 []
  end.

(** The batches run one after the other: the database they leave and the
    outcome of each. *)
Fixpoint run_in_order {Engine DB : Type}
    (execute : Engine -> DB -> list pydict -> DB * option exc)
    (self : DataProcessor Engine) (db : DB) (batches : list DataFrame)
  : DB * list (result ProcessingResult) :=
  match batches with
  | [] => (db, [])
  | batch :: rest =>
      let '(db1, outcome) := process_batch execute self db batch in
      let '(db2, outcomes) := run_in_order execute self db1 rest in
      (db2, outcome :: outcomes)
  end.

Global Instance result_fmap : FMap result := fun A B f m =>
  match m with
  | Ok a => Ok (f a)
  | Raise e => Raise e
  end.

(** The number of batches the reader makes of a file (none if it raises). *)
Definition num_batches {Engine : Type} (self : DataProcessor Engine)
    (fs : filesystem) (file_path : string) : nat :=
  match read_csv_batches self fs file_path with
  | Ok batches => length batches
  | Raise _ => 0%nat
  end.

(** The result [r] of a run is made of one result per batch, each accounting
    for the rows of its batch: the counts of [r] are the sums of theirs and
    its messages are theirs, in some order. *)
Definition once_per_batch (batches : list DataFrame) (r : ProcessingResult)
  : Prop :=
  ∃ results : list ProcessingResult,
    Forall2 (λ batch res,
               records_processed res + records_failed res
               = Z.of_nat (length batch)) batches results ∧
    records_processed r = Zsum (records_processed <$> results) ∧
    records_failed r = Zsum (records_failed <$> results) ∧
    errors r ≡ₚ concat (errors <$> results).

(** What a claim about the counts of a run compares. *)
Definition counts (r : ProcessingResult) : Z * Z * bool :=
  (records_processed r, records_failed r, success r).

Definition raised {A : Type} (m : result A) : Prop :=
  match m with
  | Ok _ => False
  | Raise _ => True
  end.

Definition raises {A : Type} (m : result A) (c : exc_class) : Prop :=
  match m with
  | Ok _ => False
  | Raise e => exc_cls e = c
  end.

(** ** Sample data *)

(** The binary64 nearest to 3.14 and the one that is 1. *)
Definition float_3_14 : spec_float := S754_finite false 7070651414971679 (-51).
Definition float_1 : spec_float := S754_finite false 4503599627370496 (-52).

Definition bob : pydict :=
  <["name" := VStr " bob "]> (<["value" := VStr "3.14"]> (<["id" := VInt 1]> ∅)).

Definition bob_processed : pydict :=
  <["name" := VStr "Bob"]>
    (<["value" := VFloat float_3_14]>
       (<["id" := VInt 1]> (<["processed" := VBool true]> ∅))).

Definition x_record : pydict :=
  <["id" := VInt 1]> (<["name" := VStr "x"]> (<["value" := VStr "3.14"]> ∅)).

Definition abc_record : pydict :=
  <["id" := VInt 1]> (<["name" := VStr "x"]> (<["value" := VStr "abc"]> ∅)).

Definition huge_record : pydict :=
  <["id" := VInt 1]> (<["name" := VStr "x"]> (<["value" := VInt (10 ^ 400)]> ∅)).

(** A database that keeps the batches it was given, and whose engine needs a
    PostgreSQL URL. *)
Definition sample_create_engine (url : string) : result unit :=
  if String.prefix "postgresql://" url then Ok tt
  else Raise (Exc LibraryError "Could not parse SQLAlchemy URL from given URL string").

Definition sample_execute (_ : unit) (db : list (list pydict))
    (batch : list pydict) : list (list pydict) * option exc :=
  (db ++ [batch], None).

(** A database that cannot be reached. *)
Definition down_execute (_ : unit) (db : list (list pydict))
    (batch : list pydict) : list (list pydict) * option exc :=
  (db, Some (Exc LibraryError "connection refused")).

Definition sample_processor : DataProcessor unit :=
  mkDataProcessor "postgresql://u:p@localhost/db" 2 4 tt.

Definition sample_url : string := "postgresql://u:p@localhost/db".

Definition one_worker_processor : DataProcessor unit :=
  mkDataProcessor sample_url 2 1 tt.

(** A file of three rows, the second of which is not valid, and a file of
    two valid rows. *)
Definition sample_fs : filesystem :=
  {[ "in.csv" := CsvRows [bob; abc_record; x_record] ]}.

Definition good_fs : filesystem := {[ "in.csv" := CsvRows [bob; x_record] ]}.

(** Two batches whose futures come back in the other order. *)
Definition swapped_pool : schedule := mkSchedule [1; 0]%nat [1; 0]%nat.

Definition in_order_pool : schedule := mkSchedule [0; 1]%nat [1; 0]%nat.

Definition good_world : World (list (list pydict)) :=
  mkWorld ["advanced_data_processor.py"; "in.csv"] good_fs
          {[ "DATABASE_URL" := sample_url ]} [] (mkSchedule [0%nat] [0%nat]).


(** A batch with a valid row and a row that is not. *)
Definition sample_batch : DataFrame := [(0, bob); (1, abc_record)].

(** ** Notions used to state the further properties *)

(** The character that [title_go] writes for [c]. *)
Definition title_char (previous_is_cased : bool) (c : ascii) : ascii :=
  if previous_is_cased then to_lower c else to_upper c.

(** A text with no character of [p] at either end. *)
Definition no_edge (p : ascii -> bool) (l : list ascii) : Prop :=
  (∀ x, head l = Some x → p x = false) ∧ (∀ x, last l = Some x → p x = false).

(** A text of 7-bit ASCII characters: the texts on which the built-ins of
    the model are those of CPython. *)
Definition is_ascii_text (s : string) : bool :=
  forallb (fun c => Nat.ltb (code c) 128) (list_ascii_of_string s).

(** What the loop of [process_batch] makes of one row: the message kept for
    a row that fails, and the record kept for a row that passes. *)
Definition row_message (row : Z * pydict) : option string :=
  match validate_record row.2 with
  | Ok true =>
      match process_record row.2 with
      | Ok _ => None
      | Raise e =>
          Some ("Error processing record " +:+ pretty row.1 +:+ ": "
                +:+ exc_msg e)
      end
  | Ok false => Some ("Validation failed for record " +:+ pretty row.1)
  | Raise e =>
      Some ("Error processing record " +:+ pretty row.1 +:+ ": "
            +:+ exc_msg e)
  end.

Definition row_record (row : Z * pydict) : option pydict :=
  match validate_record row.2 with
  | Ok true =>
      match process_record row.2 with
      | Ok processed_record => Some processed_record
      | Raise _ => None
      end
  | _ => None
  end.

(** A result whose counts and messages agree: no negative count, at least
    one failed record per message, no failed record without a message, and a
    success flag that says that no record failed. *)
Definition coherent (r : ProcessingResult) : Prop :=
  0 ≤ records_processed r ∧
  Z.of_nat (length (errors r)) ≤ records_failed r ∧
  (errors r = [] → records_failed r = 0) ∧
  success r = (records_failed r =? 0).

(** The shape of a record that [store_batch] is given: the four parameters
    of the statement are bound, the name is a text and the value is a
    float. *)
Definition storable (r : pydict) : Prop :=
  is_Some (r !! "id") ∧
  (∃ name, r !! "name" = Some (VStr name)) ∧
  (∃ f, r !! "value" = Some (VFloat f)) ∧
  r !! "processed" = Some (VBool true).

(** The file as one frame: its rows with their index labels. *)
Definition whole_frame (rows : list pydict) : DataFrame :=
  imap (fun i row => (Z.of_nat i, row)) rows.

(** A store that never fails. *)
Definition reliable {Engine DB : Type}
    (execute : Engine -> DB -> list pydict -> DB * option exc) : Prop :=
  ∀ e db batch, (execute e db batch).2 = None.

(** A store whose failures depend on the batch, not on what it holds. *)
Definition fails_by_batch {Engine DB : Type}
    (execute : Engine -> DB -> list pydict -> DB * option exc) : Prop :=
  ∀ e db1 db2 batch, (execute e db1 batch).2 = (execute e db2 batch).2.

(** The history of a store: [log db] is the list of the records of the
    transactions that the store has committed, in the order of the commits.
    A transaction that succeeds adds its batch to it, whatever rows of the
    table it inserts or updates, and one that fails adds nothing. It is not
    the rows that the table holds: the upsert of a record whose [id] is
    already there adds to the history and not to the table. *)
Definition commit_log {Engine DB : Type}
    (execute : Engine -> DB -> list pydict -> DB * option exc)
    (log : DB -> list pydict) : Prop :=
  ∀ e db batch,
    log (execute e db batch).1 =
      match (execute e db batch).2 with
      | None => log db ++ batch
      | Some _ => log db
      end.

(** ** Further sample data *)

(** A file with a header and no row. *)
Definition empty_fs : filesystem := {[ "in.csv" := CsvRows [] ]}.

(** A table keyed by the text of [id], with the history of its
    transactions, on a server that never fails: [INSERT ... ON CONFLICT (id)
    DO UPDATE] replaces the row of a record whose [id] is already there. *)
Record table_store : Type := mkStore {
  table : gmap string pydict;
  history : list pydict
}.

Definition upsert (t : gmap string pydict) (r : pydict)
  : gmap string pydict :=
  <[py_str (default VNone (r !! "id")) := r]> t.

Definition upsert_execute (_ : unit) (db : table_store)
    (batch : list pydict) : table_store * option exc :=
  (mkStore (foldl upsert (table db) batch) (history db ++ batch), None).

(** A world whose [DATABASE_URL] gives no engine. *)
Definition bad_url_world : World (list (list pydict)) :=
  mkWorld ["advanced_data_processor.py"; "in.csv"] good_fs
          {[ "DATABASE_URL" := "abc" ]} [] (mkSchedule [0%nat] [0%nat]).

(** * Properties *)

(** ** Python built-ins *)

Lemma py_in_spec (key : string) (d : pydict) :
  py_in key d = true ↔ is_Some (d !! key).
Proof. unfold py_in. by rewrite bool_decide_eq_true. Qed.

Lemma py_getitem_Some (d : pydict) (key : string) (v : pyval) :
  d !! key = Some v → py_getitem d key = Ok v.
Proof. intros H. unfold py_getitem. by rewrite H. Qed.

Lemma float_of_bool_ok (b : bool) :
  py_float (VBool b) = Ok (if b then float_1 else S754_zero false).
Proof. by destruct b. Qed.

(** [float] raises nothing but [ValueError], [TypeError] and
    [OverflowError], and the last one only on an [int]. *)
Lemma py_float_raises (v : pyval) (e : exc) :
  py_float v = Raise e →
  (exc_cls e = ValueError ∧ ∃ s, v = VStr s) ∨
  (exc_cls e = TypeError ∧ v = VNone) ∨
  (exc_cls e = OverflowError ∧ ∃ z, v = VInt z).
Proof.
  destruct v as [|b|z|f|s]; simpl.
  - intros [= <-]. right. left. done.
  - destruct b; vm_compute; intros [=].
  - unfold float_of_int.
    destruct (binary_normalize prec emax z 0 false); intros [= <-].
    right. right. eauto.
  - discriminate.
  - destruct (float_of_string s); intros [= <-]. left. eauto.
Qed.

(** The built-ins on some inputs. *)

Example float_of_string_3_14 : float_of_string "3.14" = Some float_3_14.
Proof. vm_compute. reflexivity. Qed.

Example float_of_string_abc : float_of_string "abc" = None.
Proof. reflexivity. Qed.

Example float_of_string_spaces_and_underscores :
  float_of_string " 1_000.5e-3 " = float_of_string "1.0005".
Proof. vm_compute. reflexivity. Qed.

Example float_of_string_bad_underscore : float_of_string "1__0" = None.
Proof. reflexivity. Qed.

Example float_of_string_overflow :
  float_of_string "1e400" = Some (S754_infinity false).
Proof. vm_compute. reflexivity. Qed.

Example float_of_string_nan : float_of_string " NaN " = Some S754_nan.
Proof. vm_compute. reflexivity. Qed.

Example float_of_int_exact : float_of_int (-7) = py_float (VStr "-7.0").
Proof. vm_compute. reflexivity. Qed.

Example float_of_int_largest :
  float_of_int (2 ^ 1024 - 2 ^ 970 - 1)
  = Ok (S754_finite false 9007199254740991 971).
Proof. vm_compute. reflexivity. Qed.

Example float_of_int_overflow :
  float_of_int (2 ^ 1024 - 2 ^ 970)
  = Raise (Exc OverflowError "int too large to convert to float").
Proof. vm_compute. reflexivity. Qed.

Example float_repr_examples :
  from_option float_repr EmptyString
    <$> (float_of_string
           <$> ["0.1"; "1e16"; "1e15"; "1e23"; "0.0001"; "0.00001"; "5e-324";
                "0.30000000000000004"; "100"; "-2.5"; "9007199254740993";
                "-inf"])
  = ["0.1"; "1e+16"; "1000000000000000.0"; "1e+23"; "0.0001"; "1e-05";
     "5e-324"; "0.30000000000000004"; "100.0"; "-2.5"; "9007199254740992.0";
     "-inf"].
Proof. vm_compute. reflexivity. Qed.

Example py_str_examples :
  py_str <$> [VNone; VBool true; VInt (-42); VFloat S754_nan; VStr "a b"]
  = ["None"; "True"; "-42"; "nan"; "a b"].
Proof. vm_compute. reflexivity. Qed.

Example py_strip_title_bob : py_title (py_strip " bob ") = "Bob".
Proof. reflexivity. Qed.

Example py_title_words :
  py_title "hello wORLD it's 3rd" = "Hello World It'S 3Rd".
Proof. reflexivity. Qed.

Example py_repr_str_abc : py_repr_str "abc" = "'abc'".
Proof. reflexivity. Qed.

Example read_chunks_three_rows :
  length <$> read_chunks 2 [bob; abc_record; x_record] = [2; 1]%nat ∧
  read_chunks 2 [] = [[]].
Proof. split; vm_compute; reflexivity. Qed.

(** ** [validate_record] *)

Lemma has_required_fields (record : pydict) :
  forallb (λ field, py_in field record) required_fields = true ↔
  is_Some (record !! "id") ∧ is_Some (record !! "name")
  ∧ is_Some (record !! "value").
Proof.
  unfold required_fields. simpl.
  rewrite !andb_true_iff, !py_in_spec. tauto.
Qed.

(** The value of [validate_record] on a record that has the three fields. *)
Lemma validate_record_complete (record : pydict) (v : pyval) :
  is_Some (record !! "id") → is_Some (record !! "name") →
  record !! "value" = Some v →
  validate_record record =
    match py_float v with
    | Ok _ => Ok true
    | Raise e =>
        match exc_cls e with
        | ValueError | TypeError => Ok false
        | _ => Raise e
        end
    end.
Proof.
  intros Hid Hname Hv. unfold validate_record.
  assert (forallb (λ field, py_in field record) required_fields = true) as ->.
  { apply has_required_fields. rewrite Hv. eauto. }
  simpl. rewrite (py_getitem_Some _ _ _ Hv). simpl.
  destruct (py_float v) as [f|e]; simpl; [done|].
  by destruct (exc_cls e).
Qed.

Lemma validate_record_incomplete (record : pydict) :
  ¬ (is_Some (record !! "id") ∧ is_Some (record !! "name")
     ∧ is_Some (record !! "value")) →
  validate_record record = Ok false.
Proof.
  intros H. unfold validate_record.
  destruct (forallb _ required_fields) eqn:E; [|done].
  apply has_required_fields in E. tauto.
Qed.

(** [validate_record] returns [True] exactly on the records that have the
    three fields and a value that [float] accepts. *)
Lemma validate_record_true_iff (record : pydict) :
  validate_record record = Ok true ↔
  is_Some (record !! "id") ∧ is_Some (record !! "name") ∧
  ∃ v f, record !! "value" = Some v ∧ py_float v = Ok f.
Proof.
  split.
  - intros H.
    destruct (decide (is_Some (record !! "id") ∧ is_Some (record !! "name")
                      ∧ is_Some (record !! "value"))) as [(Hid & Hn & [v Hv])|N].
    + rewrite (validate_record_complete _ v) in H by done.
      destruct (py_float v) as [f|e] eqn:Ef; [by eauto 6|].
      by destruct (exc_cls e).
    + by rewrite validate_record_incomplete in H.
  - intros (Hid & Hn & v & f & Hv & Hf).
    rewrite (validate_record_complete _ v) by done. by rewrite Hf.
Qed.

(** It raises only [OverflowError], on an [int] beyond the doubles. *)
Lemma validate_record_raise (record : pydict) (e : exc) :
  validate_record record = Raise e →
  exc_cls e = OverflowError ∧ ∃ z, record !! "value" = Some (VInt z).
Proof.
  intros H.
  destruct (decide (is_Some (record !! "id") ∧ is_Some (record !! "name")
                    ∧ is_Some (record !! "value"))) as [(Hid & Hn & [v Hv])|N].
  - rewrite (validate_record_complete _ v) in H by done.
    destruct (py_float v) as [f|e'] eqn:Ef; [done|].
    apply py_float_raises in Ef as [[Hc _]|[[Hc _]|[Hc [z ->]]]];
      rewrite Hc in H; try done.
    injection H as <-. eauto.
  - by rewrite validate_record_incomplete in H.
Qed.

Example validate_record_abc : validate_record abc_record = Ok false.
Proof. reflexivity. Qed.

Example validate_record_x : validate_record x_record = Ok true.
Proof. vm_compute. reflexivity. Qed.

Example validate_record_missing_field :
  validate_record (delete "name" x_record) = Ok false.
Proof. reflexivity. Qed.

(** C4 (the input on which the code leaves the claim): the record
    [{id: 1, name: "x", value: 10**400}] has the three fields, [float] of its
    value raises [OverflowError], which [except (ValueError, TypeError)] does
    not catch: [validate_record] raises instead of returning [False]. *)
Theorem validate_record_huge_int_raises :
  validate_record huge_record
  = Raise (Exc OverflowError "int too large to convert to float").
Proof.
  rewrite (validate_record_complete _ (VInt (10 ^ 400))) by (vm_compute; eauto).
  vm_compute. reflexivity.
Qed.

(** ** [process_record] *)

Lemma process_record_complete (record : pydict) (name value : pyval)
    (f : spec_float) :
  record !! "name" = Some name → record !! "value" = Some value →
  py_float value = Ok f →
  process_record record =
    Ok (<["processed" := VBool true]>
          (<["value" := VFloat f]>
             (<["name" := VStr (py_title (py_strip (py_str name)))]> record))).
Proof.
  intros Hn Hv Hf. unfold process_record.
  assert (py_in "name" record = true) as -> by (apply py_in_spec; eauto).
  rewrite (py_getitem_Some _ _ _ Hn). simpl.
  set (r1 := <["name" := _]> record).
  assert (r1 !! "value" = Some value) as Hv1.
  { unfold r1. by rewrite lookup_insert_ne. }
  assert (py_in "value" r1 = true) as -> by (apply py_in_spec; eauto).
  rewrite (py_getitem_Some _ _ _ Hv1). simpl. rewrite Hf. reflexivity.
Qed.

Example float_3_14_repr : float_repr float_3_14 = "3.14".
Proof. vm_compute. reflexivity. Qed.

(** C5: on a record that passes [validate_record], [process_record] returns
    a record whose [name] is the text of the old one, stripped and in title
    case, whose [value] is the float of the old one, whose [processed] is
    [True], and whose other fields are those of the input; on
    [{name: " bob ", value: "3.14", id: 1}] it returns
    [{name: "Bob", value: 3.14, id: 1, processed: True}]. *)
Theorem process_record_spec :
  (∀ record : pydict,
     validate_record record = Ok true →
     ∃ (name value : pyval) (f : spec_float) (processed : pydict),
       record !! "name" = Some name ∧ record !! "value" = Some value ∧
       py_float value = Ok f ∧
       process_record record = Ok processed ∧
       processed !! "name" = Some (VStr (py_title (py_strip (py_str name)))) ∧
       processed !! "value" = Some (VFloat f) ∧
       processed !! "processed" = Some (VBool true) ∧
       ∀ field : string,
         field ≠ "name" → field ≠ "value" → field ≠ "processed" →
         processed !! field = record !! field)
  ∧ process_record bob = Ok bob_processed.
Proof.
  split.
  - intros record (_ & [name Hn] & value & f & Hv & Hf)%validate_record_true_iff.
    eexists name, value, f, _.
    split; [done|]. split; [done|]. split; [done|].
    split; [by apply (process_record_complete _ name value f)|].
    split; [by rewrite lookup_insert_ne, lookup_insert_ne, lookup_insert_eq|].
    split; [by rewrite lookup_insert_ne, lookup_insert_eq|].
    split; [by rewrite lookup_insert_eq|].
    intros field H1 H2 H3. by rewrite !lookup_insert_ne.
  - vm_compute. reflexivity.
Qed.

(** ** [store_batch] and [process_batch] *)

Section BatchProperties.

Context {Engine DB : Type}.
Variable execute : Engine → DB → list pydict → DB * option exc.

(** Whatever the engine raises, [store_batch] raises a [DatabaseError]. *)
Lemma store_batch_raises (self : DataProcessor Engine) (db db' : DB)
    (batch : list pydict) (e : exc) :
  store_batch execute self db batch = (db', Raise e) →
  exc_cls e = DatabaseError.
Proof.
  unfold store_batch. destruct batch as [|record batch]; [intros [=]|].
  destruct (execute _ _ _) as [db1 [e1|]]; intros [= _ <-]; done.
Qed.

Lemma process_row_failed (st : batch_state) (idx : Z) (record : pydict)
    (e : exc) :
  validate_record record = Raise e ∨
  (validate_record record = Ok true ∧ process_record record = Raise e) →
  process_row st (idx, record) =
    record_failed st
      ("Error processing record " +:+ pretty idx +:+ ": " +:+ exc_msg e).
Proof.
  intros [H|[H1 H2]]; unfold process_row.
  - by rewrite H.
  - by rewrite H1, H2.
Qed.

(** Each row is counted once, as processed or as failed, and the processed
    rows are the ones kept for the database. *)
Lemma process_row_counts (st : batch_state) (row : Z * pydict) :
  n_processed (process_row st row) + n_failed (process_row st row)
    = n_processed st + n_failed st + 1 ∧
  n_processed (process_row st row)
    - Z.of_nat (length (valid_records (process_row st row)))
    = n_processed st - Z.of_nat (length (valid_records st)) ∧
  n_failed st ≤ n_failed (process_row st row).
Proof.
  destruct row as [idx record]. unfold process_row.
  destruct (validate_record record) as [[|]|e]; simpl; try lia.
  destruct (process_record record) as [processed|e]; simpl; try lia.
  rewrite length_app. simpl. lia.
Qed.

Lemma foldl_process_row_counts (df : DataFrame) (st : batch_state) :
  n_processed (foldl process_row st df) + n_failed (foldl process_row st df)
    = n_processed st + n_failed st + Z.of_nat (length df) ∧
  n_processed (foldl process_row st df)
    - Z.of_nat (length (valid_records (foldl process_row st df)))
    = n_processed st - Z.of_nat (length (valid_records st)) ∧
  n_failed st ≤ n_failed (foldl process_row st df).
Proof.
  revert st. induction df as [|row df IH]; intros st; simpl.
  - lia.
  - destruct (IH (process_row st row)) as (H1 & H2 & H3).
    destruct (process_row_counts st row) as (K1 & K2 & K3). lia.
Qed.

Lemma process_rows_counts (df : DataFrame) :
  n_processed (process_rows df) + n_failed (process_rows df)
    = Z.of_nat (length df) ∧
  n_processed (process_rows df)
    = Z.of_nat (length (valid_records (process_rows df))) ∧
  0 ≤ n_failed (process_rows df).
Proof.
  unfold process_rows.
  destruct (foldl_process_row_counts df (mkState 0 0 [] [])) as (H1 & H2 & H3).
  simpl in *. lia.
Qed.

(** The three ways [process_batch] ends, all of them a return. *)
Lemma process_batch_cases (self : DataProcessor Engine) (db : DB)
    (df : DataFrame) :
  let st := process_rows df in
  let n := Z.of_nat (length (valid_records st)) in
  (valid_records st = [] ∧
   process_batch execute self db df = (db, Ok (batch_result st))) ∨
  (valid_records st ≠ [] ∧ ∃ db' k,
   store_batch execute self db (valid_records st) = (db', Ok k) ∧
   process_batch execute self db df = (db', Ok (batch_result st))) ∨
  (valid_records st ≠ [] ∧ ∃ db' e,
   store_batch execute self db (valid_records st) = (db', Raise e) ∧
   process_batch execute self db df =
     (db', Ok (mkResult false 0 (n_failed st + n)
                 (messages st
                    ++ ["Database storage failed: " +:+ exc_msg e])))).
Proof.
  intros st n. unfold process_batch. fold st.
  destruct (process_rows_counts df) as (H1 & H2 & H3). fold st in H1, H2, H3.
  destruct (valid_records st) as [|record rest] eqn:Ev; [left; done|].
  right.
  destruct (store_batch execute self db (record :: rest))
    as [db' [k|e]] eqn:Es.
  - left. split; [done|]. eauto.
  - right. split; [done|]. exists db', e. split; [done|].
    rewrite (store_batch_raises _ _ _ _ _ Es).
    unfold batch_result. simpl. f_equal. f_equal.
    subst n. simpl length in *.
    f_equal; [|lia]. apply Z.eqb_neq. lia.
Qed.

(** [process_batch] returns, and its result accounts for every row. *)
Lemma process_batch_returns (self : DataProcessor Engine) (db : DB)
    (df : DataFrame) :
  ∃ (db' : DB) (r : ProcessingResult),
    process_batch execute self db df = (db', Ok r) ∧
    records_processed r + records_failed r = Z.of_nat (length df) ∧
    0 ≤ records_processed r ∧ 0 ≤ records_failed r ∧
    success r = (records_failed r =? 0).
Proof.
  destruct (process_rows_counts df) as (H1 & H2 & H3).
  destruct (process_batch_cases self db df)
    as [[Ev ->]|[(Ev & db' & k & _ & ->)|(Ev & db' & e & _ & ->)]];
    eexists _, _; (split; [reflexivity|]); simpl.
  - repeat split; lia.
  - repeat split; lia.
  - repeat split; try lia.
    symmetry. apply Z.eqb_neq.
    destruct (valid_records (process_rows df)); [done|]. simpl length. lia.
Qed.

(** C3: when [process_batch] calls [store_batch] and the call fails, the
    result has the processed count of the loop less the number of valid
    records (which leaves none), the failed count of the loop plus that
    number, the messages of the loop followed by one storage message, and a
    success flag that says whether the failed count is zero. *)
Theorem storage_failure_reclassifies (self : DataProcessor Engine)
    (db db' : DB) (df : DataFrame) (e : exc) :
  valid_records (process_rows df) ≠ [] →
  store_batch execute self db (valid_records (process_rows df))
    = (db', Raise e) →
  ∃ r : ProcessingResult,
    process_batch execute self db df = (db', Ok r) ∧
    records_processed r
      = n_processed (process_rows df)
        - Z.of_nat (length (valid_records (process_rows df))) ∧
    records_failed r
      = n_failed (process_rows df)
        + Z.of_nat (length (valid_records (process_rows df))) ∧
    errors r
      = messages (process_rows df)
          ++ ["Database storage failed: " +:+ exc_msg e] ∧
    success r = (records_failed r =? 0) ∧
    records_processed r = 0 ∧ success r = false.
Proof.
  intros Hne Hstore.
  destruct (process_rows_counts df) as (H1 & H2 & H3).
  destruct (process_batch_cases self db df)
    as [[Ev _]|[(_ & db1 & k & Hs & _)|(_ & db1 & e1 & Hs & ->)]].
  - done.
  - rewrite Hstore in Hs. discriminate.
  - rewrite Hstore in Hs. injection Hs as <- <-.
    eexists. split; [reflexivity|]. simpl.
    assert (0 < Z.of_nat (length (valid_records (process_rows df)))).
    { destruct (valid_records (process_rows df)); [done|]. simpl length. lia. }
    repeat split; try lia; apply Z.eqb_neq; lia.
Qed.

(** C10: an exception of [validate_record] or [process_record] on a row is
    caught in the loop and makes the row one failed record with a message;
    [store_batch] raises nothing but [DatabaseError], which [process_batch]
    catches; so [process_batch] returns a [ProcessingResult] on every
    batch. *)
Theorem process_batch_never_raises :
  (∀ (st : batch_state) (idx : Z) (record : pydict) (e : exc),
     validate_record record = Raise e ∨
     (validate_record record = Ok true ∧ process_record record = Raise e) →
     process_row st (idx, record) =
       mkState (n_processed st) (n_failed st + 1)
         (messages st
            ++ ["Error processing record " +:+ pretty idx +:+ ": "
                +:+ exc_msg e])
         (valid_records st)) ∧
  (∀ (self : DataProcessor Engine) (db db' : DB) (batch : list pydict)
     (e : exc),
     store_batch execute self db batch = (db', Raise e) →
     exc_cls e = DatabaseError) ∧
  (∀ (self : DataProcessor Engine) (db : DB) (df : DataFrame),
     ∃ (db' : DB) (r : ProcessingResult),
       process_batch execute self db df = (db', Ok r)).
Proof.
  split; [|split].
  - intros st idx record e H. by rewrite (process_row_failed st idx record e).
  - apply store_batch_raises.
  - intros self db df.
    destruct (process_batch_returns self db df) as (db' & r & H & _). eauto.
Qed.

End BatchProperties.

(** ** [read_csv_batches] *)

Lemma chunks_of_concat {A : Type} (n : nat) (l : list A) :
  concat (chunks_of n l) = l.
Proof.
  funelim (chunks_of n l); simp chunks_of; [done|].
  simpl. rewrite H. by rewrite take_drop.
Qed.

(** Up to [S n] rows make one chunk. *)
Lemma chunks_of_full {A : Type} (n : nat) (l : list A) :
  l ≠ [] → (length l ≤ S n)%nat → chunks_of n l = [l].
Proof.
  destruct l as [|x l]; [done|]. intros _ Hl. simpl in Hl. simp chunks_of.
  rewrite take_ge, drop_ge by lia. by simp chunks_of.
Qed.

(** One row more makes a second chunk, of that row. *)
Lemma chunks_of_full_plus_one {A : Type} (n : nat) (l : list A) :
  length l = S (S n) →
  chunks_of n l = [take (S n) l; drop (S n) l] ∧
  length (take (S n) l) = S n ∧ length (drop (S n) l) = 1%nat.
Proof.
  destruct l as [|x l]; [done|]. intros [= Hl]. simp chunks_of.
  assert (length (drop n l) = 1%nat) as Hd by (rewrite length_drop; lia).
  rewrite (chunks_of_full n (drop n l)).
  - simpl. rewrite length_take, Hd. repeat split; lia.
  - by destruct (drop n l).
  - lia.
Qed.

Lemma read_chunks_concat (size : nat) (rows : list pydict) :
  concat (read_chunks size rows) = imap (λ i row, (Z.of_nat i, row)) rows.
Proof.
  unfold read_chunks.
  destruct (imap _ rows) as [|row frame] eqn:E; [done|].
  by rewrite chunks_of_concat.
Qed.

Lemma read_chunks_rows (size : nat) (rows : list pydict) :
  length (concat (read_chunks size rows)) = length rows.
Proof. by rewrite read_chunks_concat, length_imap. Qed.

Lemma read_csv_batches_rows {Engine : Type} (self : DataProcessor Engine)
    (fs : filesystem) (file_path : string) (rows : list pydict) :
  fs !! file_path = Some (CsvRows rows) → 0 < batch_size self →
  read_csv_batches self fs file_path
    = Ok (read_chunks (Z.to_nat (batch_size self)) rows).
Proof.
  intros Hf Hb. unfold read_csv_batches, pd_read_csv. rewrite Hf.
  destruct (Z.leb_spec (batch_size self) 0); [lia|done].
Qed.

(** C9: with a positive batch size, a file of exactly [batch_size] rows is
    read as one batch and a file of [batch_size + 1] rows as two batches, the
    second of one row; the reader raises [FileProcessingError] when the path
    does not exist and when the file cannot be parsed. *)
Theorem read_csv_batches_boundary {Engine : Type}
    (self : DataProcessor Engine) (fs : filesystem) (file_path : string) :
  0 < batch_size self →
  (∀ rows : list pydict,
     fs !! file_path = Some (CsvRows rows) →
     Z.of_nat (length rows) = batch_size self →
     ∃ batch : DataFrame,
       read_csv_batches self fs file_path = Ok [batch] ∧ batch.*2 = rows) ∧
  (∀ rows : list pydict,
     fs !! file_path = Some (CsvRows rows) →
     Z.of_nat (length rows) = batch_size self + 1 →
     ∃ first second : DataFrame,
       read_csv_batches self fs file_path = Ok [first; second] ∧
       Z.of_nat (length first) = batch_size self ∧
       length second = 1%nat ∧ (first ++ second).*2 = rows) ∧
  (fs !! file_path = None →
   raises (read_csv_batches self fs file_path) FileProcessingError) ∧
  (∀ e : exc,
     fs !! file_path = Some (CsvError e) →
     raises (read_csv_batches self fs file_path) FileProcessingError).
Proof.
  intros Hb.
  assert (∀ rows : list pydict,
            (imap (λ i row, (Z.of_nat i, row)) rows).*2 = rows) as Hsnd.
  { intros rows. apply list_eq. intros i.
    rewrite list_lookup_fmap, list_lookup_imap.
    by destruct (rows !! i). }
  split; [|split; [|split]].
  - intros rows Hf Hlen. rewrite (read_csv_batches_rows _ _ _ rows) by done.
    unfold read_chunks.
    destruct (imap _ rows) as [|row frame] eqn:E.
    { apply (f_equal length) in E. rewrite length_imap in E. simpl in E. lia. }
    rewrite <- E. eexists. split; [|apply Hsnd].
    f_equal. apply chunks_of_full; [by rewrite E|]. rewrite length_imap. lia.
  - intros rows Hf Hlen. rewrite (read_csv_batches_rows _ _ _ rows) by done.
    unfold read_chunks.
    destruct (imap _ rows) as [|row frame] eqn:E.
    { apply (f_equal length) in E. rewrite length_imap in E. simpl in E. lia. }
    rewrite <- E.
    destruct (chunks_of_full_plus_one (Nat.pred (Z.to_nat (batch_size self)))
                (imap (λ i row, (Z.of_nat i, row)) rows)) as (-> & H1 & H2).
    { rewrite length_imap. lia. }
    eexists _, _. split; [done|]. split; [rewrite H1; lia|]. split; [done|].
    rewrite take_drop. apply Hsnd.
  - intros Hf. unfold read_csv_batches. by rewrite Hf.
  - intros e Hf. unfold read_csv_batches, pd_read_csv. rewrite Hf.
    by destruct (Z.leb_spec (batch_size self) 0).
Qed.

(** ** Sums and accumulators *)

Lemma Zsum_cons (x : Z) (l : list Z) : Zsum (x :: l) = x + Zsum l.
Proof. reflexivity. Qed.

Lemma Zsum_perm (l k : list Z) : l ≡ₚ k → Zsum l = Zsum k.
Proof. induction 1; rewrite ?Zsum_cons; lia. Qed.

Lemma concat_perm {A : Type} (l k : list (list A)) :
  l ≡ₚ k → concat l ≡ₚ concat k.
Proof.
  induction 1 as [|x l k _ IH|x y l|l k m _ IH1 _ IH2]; simpl.
  - done.
  - by rewrite IH.
  - rewrite !app_assoc. f_equiv. apply Permutation_app_comm.
  - by etrans.
Qed.

Lemma foldl_add_result (rs : list ProcessingResult) (t : totals) :
  total_processed (foldl add_result t rs)
    = total_processed t + Zsum (records_processed <$> rs) ∧
  total_failed (foldl add_result t rs)
    = total_failed t + Zsum (records_failed <$> rs) ∧
  all_errors (foldl add_result t rs)
    = all_errors t ++ concat (errors <$> rs).
Proof.
  revert t. induction rs as [|r rs IH]; intros t; simpl.
  - rewrite app_nil_r. unfold Zsum. simpl. repeat split; lia.
  - destruct (IH (add_result t r)) as (-> & -> & ->). unfold Zsum. simpl.
    rewrite <- app_assoc. repeat split; by rewrite Z.add_assoc.
Qed.

(** Results that each account for their batch account together for the rows
    of all the batches. *)
Lemma accounted_total (batches : list DataFrame)
    (results : list ProcessingResult) :
  Forall2 (λ batch res,
             records_processed res + records_failed res
             = Z.of_nat (length batch)) batches results →
  Zsum (records_processed <$> results) + Zsum (records_failed <$> results)
    = Z.of_nat (length (concat batches)).
Proof.
  induction 1 as [|batch res batches results H _ IH]; [done|].
  rewrite !fmap_cons, !Zsum_cons.
  change (concat (batch :: batches)) with (batch ++ concat batches).
  rewrite length_app. lia.
Qed.

(** The accumulated results of a run, whatever the order [l] in which the
    results [f i] of the batches came in. *)
Lemma run_result_once_per_batch (batches : list DataFrame)
    (f : nat → ProcessingResult) (l : list nat) :
  l ≡ₚ seq 0 (length batches) →
  Forall2 (λ batch res,
             records_processed res + records_failed res
             = Z.of_nat (length batch))
          batches (f <$> seq 0 (length batches)) →
  once_per_batch batches
    (run_result (foldl add_result (mkTotals 0 0 []) (f <$> l))).
Proof.
  intros Hl Hf. exists (f <$> seq 0 (length batches)).
  destruct (foldl_add_result (f <$> l) (mkTotals 0 0 [])) as (H1 & H2 & H3).
  split; [done|]. simpl. rewrite H1, H2, H3. simpl.
  split; [|split].
  - apply Zsum_perm. by rewrite Hl.
  - apply Zsum_perm. by rewrite Hl.
  - apply concat_perm. by rewrite Hl.
Qed.

Lemma once_per_batch_total (batches : list DataFrame) (r : ProcessingResult) :
  once_per_batch batches r →
  records_processed r + records_failed r
    = Z.of_nat (length (concat batches)).
Proof.
  intros (results & HF & -> & -> & _). by apply accounted_total.
Qed.

(** With one worker the batches run in the order of submission. *)
Lemma pool_one_in_order (n : nat) (pool : schedule) :
  pool_schedule 1 n pool → run_order pool = seq 0 n.
Proof.
  intros [[Hperm _] Hbound].
  assert (length (run_order pool) = n) as Hlen.
  { by rewrite Hperm, length_seq. }
  assert (NoDup (run_order pool)) as Hnd.
  { rewrite Hperm. apply NoDup_seq. }
  assert (∀ p, (p < n)%nat → run_order pool !! p = Some p) as Hid.
  { intros p. induction (lt_wf p) as [p _ IH]. intros Hp.
    destruct (lookup_lt_is_Some_2 (run_order pool) p) as [i Hi]; [lia|].
    pose proof (Hbound p i Hi) as Hb.
    destruct (decide (i = p)) as [->|Hne]; [done|].
    assert (i < p)%nat as Hip by lia.
    pose proof (IH i Hip ltac:(lia)) as Hii.
    pose proof (NoDup_lookup _ _ _ _ Hnd Hi Hii). lia. }
  apply list_eq. intros p.
  destruct (decide (p < n)%nat) as [Hp|Hp].
  - rewrite Hid by done. by rewrite lookup_seq_lt.
  - rewrite lookup_seq_ge by lia. apply lookup_ge_None. lia.
Qed.

(** ** [process_file_sequential] and [process_file_parallel] *)

Section RunProperties.

Context {Engine DB : Type}.
Variable execute : Engine → DB → list pydict → DB * option exc.

(** Run one after the other, every batch returns a result that accounts for
    its rows. *)
Lemma run_in_order_returns (self : DataProcessor Engine)
    (batches : list DataFrame) (db : DB) :
  Forall2 (λ batch outcome,
             ∃ r, outcome = Ok r ∧
                  records_processed r + records_failed r
                  = Z.of_nat (length batch))
          batches (run_in_order execute self db batches).2.
Proof.
  revert db. induction batches as [|batch rest IH]; intros db; simpl.
  - constructor.
  - destruct (process_batch_returns execute self db batch)
      as (db1 & r & Hp & Hr & _).
    rewrite Hp. specialize (IH db1).
    destruct (run_in_order execute self db1 rest) as [db2 outcomes].
    simpl in *. constructor; eauto.
Qed.

Lemma sequential_loop_spec (self : DataProcessor Engine)
    (batches : list DataFrame) (db : DB) (t : totals) :
  sequential_loop execute self db batches t =
    ((run_in_order execute self db batches).1,
     Ok (foldl add_result t
           (returned <$> (run_in_order execute self db batches).2))).
Proof.
  revert db t. induction batches as [|batch rest IH]; intros db t; simpl.
  - done.
  - destruct (process_batch_returns execute self db batch)
      as (db1 & r & Hp & _).
    rewrite Hp, IH.
    by destruct (run_in_order execute self db1 rest) as [db2 outcomes].
Qed.

(** The workers, in any order: the futures they leave hold results that
    account for their batches, one for every batch that was run. *)
Lemma run_workers_returns (self : DataProcessor Engine)
    (batches : list DataFrame) (order : list nat) (db : DB) (done : futures) :
  (∀ i outcome, done !! i = Some outcome →
     ∃ batch r, batches !! i = Some batch ∧ outcome = Ok r ∧
       records_processed r + records_failed r = Z.of_nat (length batch)) →
  ∃ (db' : DB) (done' : futures),
    run_workers execute self batches db order done = (db', done') ∧
    (∀ i outcome, done' !! i = Some outcome →
       ∃ batch r, batches !! i = Some batch ∧ outcome = Ok r ∧
         records_processed r + records_failed r = Z.of_nat (length batch)) ∧
    (∀ i, i ∈ order → (i < length batches)%nat → is_Some (done' !! i)) ∧
    (∀ i, is_Some (done !! i) → is_Some (done' !! i)).
Proof.
  revert db done. induction order as [|j order IH]; intros db done Hdone.
  - exists db, done. repeat split; try done. by intros i ?%elem_of_nil.
  - simpl. destruct (batches !! j) as [batch|] eqn:Ej.
    + destruct (process_batch_returns execute self db batch)
        as (db1 & r & Hp & Hr & _).
      rewrite Hp.
      destruct (IH db1 (<[j := Ok r]> done)) as (db' & done' & H1 & H2 & H3 & H4).
      { intros i outcome. destruct (decide (j = i)) as [<-|Hne].
        - rewrite lookup_insert_eq. intros [= <-]. eauto.
        - rewrite lookup_insert_ne by done. apply Hdone. }
      exists db', done'. repeat split; try done.
      * intros i [->|Hi]%elem_of_cons Hlt; [|by apply H3].
        apply H4. rewrite lookup_insert_eq. eauto.
      * intros i Hi. apply H4. destruct (decide (j = i)) as [<-|Hne].
        -- rewrite lookup_insert_eq. eauto.
        -- by rewrite lookup_insert_ne.
    + destruct (IH db done Hdone) as (db' & done' & H1 & H2 & H3 & H4).
      exists db', done'. repeat split; try done.
      intros i [->|Hi]%elem_of_cons Hlt; [|by apply H3].
      apply lookup_ge_None in Ej. lia.
Qed.

(** The workers, in the order of submission: the database and the futures
    are those of the batches run one after the other. *)
Lemma run_workers_in_order (self : DataProcessor Engine)
    (batches : list DataFrame) (m k : nat) (db : DB) (done : futures) :
  (k + m = length batches)%nat →
  ∃ done' : futures,
    run_workers execute self batches db (seq k m) done
      = ((run_in_order execute self db (drop k batches)).1, done') ∧
    ∀ i, done' !! i =
         if decide (k ≤ i < k + m)%nat
         then (run_in_order execute self db (drop k batches)).2 !! (i - k)%nat
         else done !! i.
Proof.
  revert k db done. induction m as [|m IH]; intros k db done Hk.
  - simpl. rewrite drop_ge by lia. simpl. exists done. split; [done|].
    intros i. case_decide; [lia|done].
  - simpl.
    destruct (lookup_lt_is_Some_2 batches k) as [batch Eb]; [lia|].
    rewrite Eb, (drop_S _ _ _ Eb). simpl.
    destruct (process_batch execute self db batch) as [db1 outcome].
    destruct (IH (S k) db1 (<[k := outcome]> done)) as (done' & H1 & H2);
      [lia|].
    destruct (run_in_order execute self db1 (drop (S k) batches))
      as [db2 outcomes].
    simpl in *. exists done'. split; [done|].
    intros i. rewrite H2. repeat case_decide; try lia.
    + by replace (i - k)%nat with (S (i - S k)) by lia.
    + assert (i = k) as -> by lia.
      rewrite lookup_insert_eq. by replace (k - k)%nat with 0%nat by lia.
    + rewrite lookup_insert_ne by lia. done.
Qed.

Lemma foldl_collect (done : futures) (f : nat → ProcessingResult)
    (l : list nat) (t : totals) :
  (∀ i, i ∈ l → done !! i = Some (Ok (f i))) →
  foldl (collect done) t l = foldl add_result t (f <$> l).
Proof.
  revert t. induction l as [|i l IH]; intros t H; simpl; [done|].
  rewrite IH by (intros; apply H; set_solver).
  unfold collect. rewrite H by set_solver. done.
Qed.

Lemma process_file_sequential_once (self : DataProcessor Engine)
    (fs : filesystem) (db : DB) (file_path : string)
    (batches : list DataFrame) :
  read_csv_batches self fs file_path = Ok batches →
  ∃ (db' : DB) (r : ProcessingResult),
    process_file_sequential execute self fs db file_path = (db', Ok r) ∧
    once_per_batch batches r.
Proof.
  intros Hread. unfold process_file_sequential.
  rewrite Hread, sequential_loop_spec.
  eexists _, _. split; [reflexivity|].
  exists (returned <$> (run_in_order execute self db batches).2).
  destruct (foldl_add_result
              (returned <$> (run_in_order execute self db batches).2)
              (mkTotals 0 0 [])) as (H1 & H2 & H3).
  simpl. rewrite H1, H2, H3. simpl. repeat split; try done.
  apply Forall2_fmap_r.
  eapply Forall2_impl; [apply run_in_order_returns|].
  intros batch outcome (r & -> & Hr). done.
Qed.

Lemma process_file_parallel_once (self : DataProcessor Engine)
    (fs : filesystem) (db : DB) (file_path : string)
    (batches : list DataFrame) (pool : schedule) :
  read_csv_batches self fs file_path = Ok batches →
  fair_schedule (length batches) pool →
  ∃ (db' : DB) (r : ProcessingResult),
    process_file_parallel execute self fs db file_path pool = (db', Ok r) ∧
    once_per_batch batches r.
Proof.
  intros Hread [Hrun Hdone]. unfold process_file_parallel. rewrite Hread.
  destruct (run_workers_returns self batches (run_order pool) db ∅)
    as (db' & done' & -> & Hgood & Hsome & _).
  { intros i outcome. by rewrite lookup_empty. }
  set (f := λ i : nat, match done' !! i with
                       | Some outcome => returned outcome
                       | None => mkResult false 0 0 []
                       end).
  assert (∀ i, (i < length batches)%nat → done' !! i = Some (Ok (f i))) as Hf.
  { intros i Hi. destruct (Hsome i) as [outcome Ho]; [|done|].
    - rewrite Hrun. apply elem_of_seq. lia.
    - destruct (Hgood i outcome Ho) as (batch & r & _ & -> & _).
      unfold f. by rewrite Ho. }
  eexists _, _. split; [reflexivity|].
  rewrite (foldl_collect done' f).
  - apply run_result_once_per_batch; [done|].
    apply Forall2_same_length_lookup_2.
    { by rewrite length_fmap, length_seq. }
    intros i batch res Hb Hres.
    pose proof (lookup_lt_Some _ _ _ Hb) as Hi.
    rewrite list_lookup_fmap, lookup_seq_lt in Hres by done.
    simpl in Hres. assert (res = f i) as -> by congruence.
    destruct (Hgood i _ (Hf i Hi)) as (batch' & r & Hb' & Hr' & Hr).
    assert (f i = r) as -> by congruence.
    assert (batch' = batch) as <- by congruence. done.
  - intros i Hi. apply Hf. rewrite Hdone in Hi. apply elem_of_seq in Hi. lia.
Qed.

(** C1: for a file that is read, with a positive batch size, the result of
    the sequential run and, for every schedule in which each batch runs once
    and each future is handed back once, the result of the parallel run have
    [records_processed + records_failed] equal to the number of rows of the
    file, and are made of one result per batch. *)
Theorem run_accounts_for_every_record (self : DataProcessor Engine)
    (fs : filesystem) (db : DB) (file_path : string) (rows : list pydict)
    (pool : schedule) :
  fs !! file_path = Some (CsvRows rows) →
  0 < batch_size self →
  fair_schedule (num_batches self fs file_path) pool →
  ∃ batches : list DataFrame,
    read_csv_batches self fs file_path = Ok batches ∧
    (concat batches).*2 = rows ∧
    (∃ (db' : DB) (r : ProcessingResult),
       process_file_sequential execute self fs db file_path = (db', Ok r) ∧
       records_processed r + records_failed r = Z.of_nat (length rows) ∧
       once_per_batch batches r) ∧
    (∃ (db' : DB) (r : ProcessingResult),
       process_file_parallel execute self fs db file_path pool = (db', Ok r) ∧
       records_processed r + records_failed r = Z.of_nat (length rows) ∧
       once_per_batch batches r).
Proof.
  intros Hfile Hsize Hpool.
  pose proof (read_csv_batches_rows self fs file_path rows Hfile Hsize) as Hread.
  unfold num_batches in Hpool. rewrite Hread in Hpool.
  set (batches := read_chunks (Z.to_nat (batch_size self)) rows) in *.
  assert (length (concat batches) = length rows) as Hlen
    by apply read_chunks_rows.
  exists batches. split; [done|]. split; [|split].
  - unfold batches. rewrite read_chunks_concat. apply list_eq. intros i.
    rewrite list_lookup_fmap, list_lookup_imap. by destruct (rows !! i).
  - destruct (process_file_sequential_once self fs db file_path batches Hread)
      as (db' & r & Hrun & Honce).
    exists db', r. split; [done|]. split; [|done].
    by rewrite (once_per_batch_total batches r Honce), Hlen.
  - destruct (process_file_parallel_once self fs db file_path batches pool
                Hread Hpool) as (db' & r & Hrun & Honce).
    exists db', r. split; [done|]. split; [|done].
    by rewrite (once_per_batch_total batches r Honce), Hlen.
Qed.

(** C6: with [max_workers = 1], for every schedule the pool can produce, the
    parallel run has the same processed count, failed count and success flag
    as the sequential run on the same file and database (or raises the same
    exception), and leaves the same database. *)
Theorem one_worker_same_counts (self : DataProcessor Engine)
    (fs : filesystem) (db : DB) (file_path : string) (pool : schedule) :
  max_workers self = 1 →
  pool_schedule (max_workers self) (num_batches self fs file_path) pool →
  counts <$> (process_file_parallel execute self fs db file_path pool).2
    = counts <$> (process_file_sequential execute self fs db file_path).2 ∧
  (process_file_parallel execute self fs db file_path pool).1
    = (process_file_sequential execute self fs db file_path).1.
Proof.
  intros Hone Hpool. rewrite Hone in Hpool.
  unfold num_batches in Hpool.
  unfold process_file_parallel, process_file_sequential.
  destruct (read_csv_batches self fs file_path) as [batches|e]; [|done].
  rewrite (pool_one_in_order _ _ Hpool), sequential_loop_spec.
  destruct Hpool as [[_ Hdone] _].
  destruct (run_workers_in_order self batches (length batches) 0 db ∅)
    as (done' & -> & Hlookup); [lia|].
  rewrite drop_0 in *.
  pose proof (run_in_order_returns self batches db) as Hret.
  set (outcomes := (run_in_order execute self db batches).2) in *.
  set (f := λ i : nat, match outcomes !! i with
                       | Some outcome => returned outcome
                       | None => mkResult false 0 0 []
                       end).
  assert (f <$> seq 0 (length batches) = returned <$> outcomes) as Hf.
  { apply list_eq. intros i. rewrite !list_lookup_fmap.
    destruct (decide (i < length batches)%nat) as [Hi|Hi].
    - rewrite lookup_seq_lt by done. simpl. unfold f.
      destruct (outcomes !! i) eqn:E; [done|].
      apply lookup_ge_None in E. rewrite <- (Forall2_length _ _ _ Hret) in E.
      lia.
    - rewrite lookup_seq_ge by lia.
      rewrite (proj2 (lookup_ge_None outcomes i)); [done|].
      rewrite <- (Forall2_length _ _ _ Hret). lia. }
  rewrite (foldl_collect done' f).
  - simpl. split; [|done]. f_equal.
    destruct (foldl_add_result (f <$> completion_order pool) (mkTotals 0 0 []))
      as (H1 & H2 & _).
    destruct (foldl_add_result (returned <$> outcomes) (mkTotals 0 0 []))
      as (K1 & K2 & _).
    assert (∀ g : ProcessingResult → Z,
              Zsum (g <$> (f <$> completion_order pool))
              = Zsum (g <$> (returned <$> outcomes))) as Hsum.
    { intros g. rewrite <- Hf. apply Zsum_perm. by rewrite Hdone. }
    unfold counts, run_result. simpl.
    rewrite H1, H2, K1, K2, !Hsum. done.
  - intros i Hi. rewrite Hdone in Hi. apply elem_of_seq in Hi.
    rewrite Hlookup. case_decide; [|lia].
    replace (i - 0)%nat with i by lia. unfold f.
    destruct (lookup_lt_is_Some_2 batches i) as [batch Hb]; [lia|].
    destruct (Forall2_lookup_l _ _ _ _ _ Hret Hb) as (outcome & -> & r & -> & _).
    done.
Qed.

(** The totals of the collecting loop: the futures that returned add their
    counts, a future that raised adds nothing. *)
Lemma foldl_collect_counts (done : futures) (l : list nat) (t : totals) :
  total_processed (foldl (collect done) t l)
    = total_processed t
      + Zsum ((λ i, records_processed
                      (from_option returned (mkResult false 0 0 [])
                                   (done !! i))) <$> l) ∧
  total_failed (foldl (collect done) t l)
    = total_failed t
      + Zsum ((λ i, records_failed
                      (from_option returned (mkResult false 0 0 [])
                                   (done !! i))) <$> l).
Proof.
  revert t. induction l as [|i l IH]; intros t.
  - split; unfold Zsum; simpl; lia.
  - change (foldl (collect done) t (i :: l))
      with (foldl (collect done) (collect done t i) l).
    destruct (IH (collect done t i)) as [-> ->].
    rewrite !fmap_cons, !Zsum_cons. unfold collect.
    destruct (done !! i) as [[r|e]|]; simpl; lia.
Qed.

(** With the method of the class itself, the run with a method is
    [process_file_parallel]. *)
Lemma run_workers_with_own_method (self : DataProcessor Engine)
    (batches : list DataFrame) (order : list nat) (db : DB) (done : futures) :
  run_workers_with (process_batch execute self) batches db order done
  = run_workers execute self batches db order done.
Proof.
  revert db done. induction order as [|i order IH]; intros db done.
  - reflexivity.
  - simpl. destruct (batches !! i) as [batch|]; [|apply IH].
    destruct (process_batch execute self db batch) as [db' outcome]. apply IH.
Qed.

Lemma process_file_parallel_with_own_method (self : DataProcessor Engine)
    (fs : filesystem) (db : DB) (file_path : string) (pool : schedule) :
  process_file_parallel_with (process_batch execute self) self fs db file_path
                             pool
  = process_file_parallel execute self fs db file_path pool.
Proof.
  unfold process_file_parallel_with, process_file_parallel.
  destruct (read_csv_batches self fs file_path) as [batches|e]; [|reflexivity].
  by rewrite run_workers_with_own_method.
Qed.

(** Whatever the method, the counts of the parallel run are the sums of the
    counts of the futures that returned: a future that raised adds a message
    and no record. *)
Lemma process_file_parallel_with_counts
    (method : DB → DataFrame → DB * result ProcessingResult)
    (self : DataProcessor Engine) (fs : filesystem) (db : DB)
    (file_path : string) (pool : schedule) (batches : list DataFrame) :
  read_csv_batches self fs file_path = Ok batches →
  ∃ r : ProcessingResult,
    (process_file_parallel_with method self fs db file_path pool).2 = Ok r ∧
    records_processed r
      = Zsum ((λ i, records_processed
                      (from_option returned (mkResult false 0 0 [])
                         ((run_workers_with method batches db (run_order pool)
                             ∅).2 !! i)))
                <$> completion_order pool) ∧
    records_failed r
      = Zsum ((λ i, records_failed
                      (from_option returned (mkResult false 0 0 [])
                         ((run_workers_with method batches db (run_order pool)
                             ∅).2 !! i)))
                <$> completion_order pool) ∧
    success r = (records_failed r =? 0).
Proof.
  intros Hread. unfold process_file_parallel_with. rewrite Hread.
  destruct (run_workers_with method batches db (run_order pool) ∅)
    as [db' futures_done].
  eexists. split; [reflexivity|]. cbn [snd].
  destruct (foldl_collect_counts futures_done (completion_order pool)
              (mkTotals 0 0 [])) as [H1 H2].
  unfold run_result.
  cbn [records_processed records_failed success total_processed total_failed]
    in *.
  rewrite H1, H2. repeat split; lia.
Qed.

End RunProperties.

(** ** The constructor *)

Section ConstructorProperties.

Context {Engine : Type}.
Variable create_engine : string → result Engine.

(** The condition under which the check of the constructor fails. *)
Lemma init_rejected (db_url : string) (batch_size max_workers : option Z) :
  db_url = EmptyString ∨ default 1000 batch_size ≤ 0
  ∨ default 4 max_workers ≤ 0 →
  ∃ msg : string,
    __init__ create_engine db_url batch_size max_workers
    = ([], Raise (Exc ValueError msg)).
Proof.
  intros H. unfold __init__.
  destruct db_url as [|c s]; [eauto|].
  destruct (Z.leb_spec (default 1000 batch_size) 0); [eauto|].
  destruct (Z.leb_spec (default 4 max_workers) 0); [eauto|].
  destruct H as [H|[H|H]]; [done|lia|lia].
Qed.

Lemma init_accepted (db_url : string) (batch_size max_workers : option Z) :
  ¬ (db_url = EmptyString ∨ default 1000 batch_size ≤ 0
     ∨ default 4 max_workers ≤ 0) →
  __init__ create_engine db_url batch_size max_workers =
    match create_engine db_url with
    | Raise e => ([CreateEngine db_url], Raise e)
    | Ok engine =>
        ([CreateEngine db_url;
          LogInfo ("DataProcessor initialized (batch_size="
                   +:+ pretty (default 1000 batch_size) +:+ ", workers="
                   +:+ pretty (default 4 max_workers) +:+ ")")],
         Ok (mkDataProcessor db_url (default 1000 batch_size)
               (default 4 max_workers) engine))
    end.
Proof.
  intros H. unfold __init__.
  destruct db_url as [|c s]; [tauto|].
  destruct (Z.leb_spec (default 1000 batch_size) 0); [tauto|].
  destruct (Z.leb_spec (default 4 max_workers) 0); [tauto|].
  done.
Qed.

(** C8, as the code has it: the constructor raises [ValueError] before any
    event (before [create_engine] is called and before anything is logged)
    exactly when the URL is empty, the batch size is not positive or the
    worker count is not positive, the sizes being 1000 and 4 when they are
    left out; past the check it calls [create_engine], whose exception goes
    on to the caller, and returns the processor when there is none. *)
Theorem init_checks_configuration (db_url : string)
    (size workers : option Z) :
  ((__init__ create_engine db_url size workers).1 = [] ↔
   db_url = EmptyString ∨ default 1000 size ≤ 0
   ∨ default 4 workers ≤ 0) ∧
  ((__init__ create_engine db_url size workers).1 = [] →
   raises (__init__ create_engine db_url size workers).2
          ValueError) ∧
  ((__init__ create_engine db_url size workers).1 ≠ [] →
   (__init__ create_engine db_url size workers).2
   = (λ engine, mkDataProcessor db_url (default 1000 size)
                  (default 4 workers) engine)
     <$> create_engine db_url) ∧
  (∀ processor : DataProcessor Engine,
     (__init__ create_engine db_url None None).2 = Ok processor →
     batch_size processor = 1000 ∧
     max_workers processor = 4).
Proof.
  assert (∀ processor : DataProcessor Engine,
            (__init__ create_engine db_url None None).2 = Ok processor →
            batch_size processor = 1000 ∧ max_workers processor = 4)
    as Hdefaults.
  { intros processor. unfold __init__. simpl.
    destruct db_url as [|c s]; [done|].
    destruct (create_engine (String c s)); simpl; [|done].
    by intros [= <-]. }
  destruct (decide (db_url = EmptyString ∨ default 1000 size ≤ 0
                    ∨ default 4 workers ≤ 0)) as [Hbad|Hgood].
  - destruct (init_rejected db_url size workers Hbad) as [msg ->]. simpl.
    split; [tauto|]. split; [done|]. split; [done|]. exact Hdefaults.
  - rewrite (init_accepted db_url size workers Hgood).
    destruct (create_engine db_url) as [engine|e]; simpl.
    + split; [split; [done|tauto]|]. split; [done|]. split; [done|].
      exact Hdefaults.
    + split; [split; [done|tauto]|]. split; [done|]. split; [done|].
      exact Hdefaults.
Qed.

End ConstructorProperties.

(** ** [main] *)

Section MainProperties.

Context {Engine DB : Type}.
Variable create_engine : string → result Engine.
Variable execute : Engine → DB → list pydict → DB * option exc.

Lemma process_file_parallel_success (self : DataProcessor Engine)
    (fs : filesystem) (db db' : DB) (file_path : string) (pool : schedule)
    (r : ProcessingResult) :
  process_file_parallel execute self fs db file_path pool = (db', Ok r) →
  success r = (records_failed r =? 0).
Proof.
  unfold process_file_parallel.
  destruct (read_csv_batches self fs file_path); [|done].
  destruct (run_workers _ _ _ _ _ _) as [db1 done].
  by intros [= _ <-].
Qed.

Lemma main_run_success (w : World DB) (input_file db_url : string)
    (db' : DB) (r : ProcessingResult) :
  main_run create_engine execute w input_file db_url = (db', Ok r) →
  success r = (records_failed r =? 0).
Proof.
  unfold main_run.
  destruct (__init__ create_engine db_url (Some 1000) (Some 4)).2; [|done].
  apply process_file_parallel_success.
Qed.

(** The exit code in the three cases that end [main] before the [try]. *)
Lemma main_setup_error (w : World DB) :
  (length (argv w) < 2)%nat ∨
  (∃ input_file, argv w !! 1%nat = Some input_file
                 ∧ files w !! input_file = None) ∨
  environ w !! "DATABASE_URL" = None ∨
  environ w !! "DATABASE_URL" = Some EmptyString →
  (main create_engine execute w).2 = 1.
Proof.
  unfold main. destruct (argv w) as [|prog [|input_file rest]]; [done..|].
  simpl. intros [H|[(f & [= <-] & Hf)|H]]; [lia| |].
  - by rewrite Hf.
  - destruct (files w !! input_file); simpl; [|done].
    by destruct H as [-> | ->].
Qed.

Lemma main_after_setup (w : World DB) (input_file db_url : string) :
  argv w !! 1%nat = Some input_file →
  is_Some (files w !! input_file) →
  environ w !! "DATABASE_URL" = Some db_url → db_url ≠ EmptyString →
  (main create_engine execute w).2 =
    match (main_run create_engine execute w input_file db_url).2 with
    | Ok r => if success r then 0 else 1
    | Raise _ => 1
    end.
Proof.
  intros Ha [file Hf] He Hne. unfold main.
  destruct (argv w) as [|prog [|input_file' rest]]; [done..|].
  injection Ha as ->. rewrite Hf, He. simpl.
  destruct db_url as [|c s]; [done|].
  destruct (main_run _ _ _ _ _) as [db' [r|e]]; done.
Qed.

(** C7: [main] returns 1 when the argument is missing, when the input file
    does not exist, and when [DATABASE_URL] is unset or empty; past these,
    it returns 0 when the run returns a result whose success flag is true,
    which is when its failed count is zero, and 1 when the flag is false or
    when the constructor or the run raises. It returns nothing else. *)
Theorem main_exit_code (w : World DB) :
  ((length (argv w) < 2)%nat → (main create_engine execute w).2 = 1) ∧
  (∀ input_file : string,
     argv w !! 1%nat = Some input_file → files w !! input_file = None →
     (main create_engine execute w).2 = 1) ∧
  (environ w !! "DATABASE_URL" = None
   ∨ environ w !! "DATABASE_URL" = Some EmptyString →
   (main create_engine execute w).2 = 1) ∧
  (∀ input_file db_url : string,
     argv w !! 1%nat = Some input_file →
     is_Some (files w !! input_file) →
     environ w !! "DATABASE_URL" = Some db_url → db_url ≠ EmptyString →
     match (main_run create_engine execute w input_file db_url).2 with
     | Ok r =>
         (success r = true ↔ records_failed r = 0) ∧
         (success r = true → (main create_engine execute w).2 = 0) ∧
         (success r = false → (main create_engine execute w).2 = 1)
     | Raise _ => (main create_engine execute w).2 = 1
     end) ∧
  ((main create_engine execute w).2 = 0 ∨ (main create_engine execute w).2 = 1).
Proof.
  split; [|split; [|split; [|split]]].
  - intros H. apply main_setup_error. auto.
  - intros input_file Ha Hf. apply main_setup_error. eauto 6.
  - intros H. apply main_setup_error. tauto.
  - intros input_file db_url Ha Hf He Hne.
    rewrite (main_after_setup w input_file db_url) by done.
    destruct (main_run _ _ _ _ _) as [db' [r|e]] eqn:E; simpl; [|done].
    rewrite (main_run_success _ _ _ _ _ E).
    split; [apply Z.eqb_eq|]. split; intros ->; done.
  - unfold main. destruct (argv w) as [|prog [|input_file rest]]; auto.
    destruct (negb _); auto.
    destruct (environ w !! "DATABASE_URL") as [[|c s]|]; auto.
    destruct (main_run _ _ _ _ _) as [db' [r|e]]; auto.
    destruct (success r); auto.
Qed.

End MainProperties.

(** ** The properties on the sample data *)

Lemma run_accounts_for_every_record_witness :
  ∃ (db' : list (list pydict)) (r : ProcessingResult),
    process_file_parallel sample_execute sample_processor sample_fs []
                          "in.csv" swapped_pool = (db', Ok r) ∧
    records_processed r + records_failed r = 3.
Proof.
  destruct (run_accounts_for_every_record sample_execute sample_processor
              sample_fs [] "in.csv" [bob; abc_record; x_record] swapped_pool)
    as (batches & _ & _ & _ & db' & r & Hrun & Hcount & _).
  - reflexivity.
  - reflexivity.
  - assert (num_batches sample_processor sample_fs "in.csv" = 2%nat) as ->
      by (vm_compute; reflexivity).
    split; apply perm_swap.
  - exists db', r. split; [exact Hrun | exact Hcount].
Defined.


Lemma storage_failure_reclassifies_witness :
  ∃ r : ProcessingResult,
    process_batch down_execute sample_processor [] sample_batch = ([], Ok r) ∧
    records_processed r = 0 ∧ records_failed r = 2 ∧ success r = false.
Proof.
  destruct (storage_failure_reclassifies down_execute sample_processor [] []
              sample_batch
              (Exc DatabaseError "Failed to store batch: connection refused"))
    as (r & Hrun & _ & Hfailed & _ & _ & Hzero & Hsuccess).
  - vm_compute. discriminate.
  - vm_compute. reflexivity.
  - exists r. split; [exact Hrun|]. split; [exact Hzero|].
    split; [|exact Hsuccess]. rewrite Hfailed. vm_compute. reflexivity.
Defined.

Lemma process_record_spec_witness :
  ∃ processed : pydict,
    process_record bob = Ok processed ∧
    processed !! "name" = Some (VStr "Bob") ∧
    processed !! "value" = Some (VFloat float_3_14).
Proof.
  destruct (proj1 process_record_spec bob)
    as (name & value & f & processed & Hn & Hv & Hf & Hp & Hpn & Hpv & _).
  - vm_compute. reflexivity.
  - exists processed. split; [exact Hp|].
    assert (name = VStr " bob ") as ->
      by (vm_compute in Hn; injection Hn as <-; reflexivity).
    assert (value = VStr "3.14") as ->
      by (vm_compute in Hv; injection Hv as <-; reflexivity).
    assert (f = float_3_14) as ->
      by (vm_compute in Hf; injection Hf as <-; reflexivity).
    split; [exact Hpn | exact Hpv].
Defined.

Lemma one_worker_same_counts_witness :
  counts <$> (process_file_parallel sample_execute one_worker_processor
                sample_fs [] "in.csv" in_order_pool).2
  = counts <$> (process_file_sequential sample_execute one_worker_processor
                  sample_fs [] "in.csv").2.
Proof.
  apply (one_worker_same_counts sample_execute one_worker_processor sample_fs
           [] "in.csv" in_order_pool).
  - reflexivity.
  - assert (num_batches one_worker_processor sample_fs "in.csv" = 2%nat) as ->
      by (vm_compute; reflexivity).
    split; [split; [reflexivity | apply perm_swap]|].
    intros [|[|p]] i; simpl; intros [= <-]; simpl; lia.
Defined.

Lemma main_exit_code_witness :
  (main sample_create_engine sample_execute good_world).2 = 0.
Proof.
  pose proof (proj1 (proj2 (proj2 (proj2
    (main_exit_code sample_create_engine sample_execute good_world))))
    "in.csv" sample_url) as H.
  assert ((main_run sample_create_engine sample_execute good_world "in.csv"
             sample_url).2
          = Ok (mkResult true 2 0 [])) as E by (vm_compute; reflexivity).
  rewrite E in H. apply H.
  - reflexivity.
  - vm_compute. eauto.
  - reflexivity.
  - discriminate.
  - reflexivity.
Defined.

(** What the claim C8 says fails here: the URL is not empty and the sizes
    are the defaults, and the constructor raises, in [create_engine]. *)
Lemma init_raises_on_unparsable_url :
  ¬ (∀ (db_url : string) (size workers : option Z),
       raised (__init__ sample_create_engine db_url size workers).2 ↔
       db_url = EmptyString ∨ default 1000 size ≤ 0 ∨ default 4 workers ≤ 0).
Proof.
  intros H. destruct (proj1 (H "abc" None None)) as [E|[E|E]].
  - vm_compute. exact I.
  - discriminate.
  - simpl in E. lia.
  - simpl in E. lia.
Qed.

Lemma init_checks_configuration_witness :
  (__init__ sample_create_engine EmptyString None None).1 = [] ∧
  raises (__init__ sample_create_engine EmptyString None None).2 ValueError.
Proof.
  destruct (init_checks_configuration sample_create_engine EmptyString
              None None) as (Hiff & Hraises & _).
  assert ((__init__ sample_create_engine EmptyString None None).1 = []) as E.
  { apply Hiff. left. reflexivity. }
  split; [exact E | exact (Hraises E)].
Defined.

Lemma read_csv_batches_boundary_witness :
  ∃ first second : DataFrame,
    read_csv_batches sample_processor sample_fs "in.csv"
    = Ok [first; second] ∧ length second = 1%nat.
Proof.
  destruct (read_csv_batches_boundary sample_processor sample_fs "in.csv")
    as (_ & Hplus & _).
  - reflexivity.
  - destruct (Hplus [bob; abc_record; x_record])
      as (first & second & Hread & _ & Hone & _).
    + reflexivity.
    + reflexivity.
    + exists first, second. split; [exact Hread | exact Hone].
Defined.

Lemma process_batch_never_raises_witness :
  process_row (mkState 0 0 [] []) (7, huge_record)
  = mkState 0 1
      ["Error processing record 7: int too large to convert to float"] [].
Proof.
  rewrite (proj1 (process_batch_never_raises sample_execute)
             (mkState 0 0 [] []) 7 huge_record
             (Exc OverflowError "int too large to convert to float")).
  - reflexivity.
  - left. vm_compute. reflexivity.
Defined.

(** * Further properties *)

(** ** Characters and [str.strip], [str.title] *)

Lemma to_upper_idem (c : ascii) : to_upper (to_upper c) = to_upper c.
Proof. destruct c as [[] [] [] [] [] [] [] []]; reflexivity. Qed.

Lemma to_lower_idem (c : ascii) : to_lower (to_lower c) = to_lower c.
Proof. destruct c as [[] [] [] [] [] [] [] []]; reflexivity. Qed.

Lemma is_cased_to_upper (c : ascii) : is_cased (to_upper c) = is_cased c.
Proof. destruct c as [[] [] [] [] [] [] [] []]; reflexivity. Qed.

Lemma is_cased_to_lower (c : ascii) : is_cased (to_lower c) = is_cased c.
Proof. destruct c as [[] [] [] [] [] [] [] []]; reflexivity. Qed.

Lemma is_space_to_upper (c : ascii) : is_space (to_upper c) = is_space c.
Proof. destruct c as [[] [] [] [] [] [] [] []]; reflexivity. Qed.

Lemma is_space_to_lower (c : ascii) : is_space (to_lower c) = is_space c.
Proof. destruct c as [[] [] [] [] [] [] [] []]; reflexivity. Qed.

Lemma title_char_idem (b : bool) (c : ascii) :
  title_char b (title_char b c) = title_char b c.
Proof. destruct b; simpl; [apply to_lower_idem | apply to_upper_idem]. Qed.

Lemma is_cased_title_char (b : bool) (c : ascii) :
  is_cased (title_char b c) = is_cased c.
Proof. destruct b; simpl; [apply is_cased_to_lower | apply is_cased_to_upper]. Qed.

Lemma is_space_title_char (b : bool) (c : ascii) :
  is_space (title_char b c) = is_space c.
Proof. destruct b; simpl; [apply is_space_to_lower | apply is_space_to_upper]. Qed.

Lemma title_go_cons (b : bool) (c : ascii) (l : list ascii) :
  title_go b (c :: l) = title_char b c :: title_go (is_cased c) l.
Proof. reflexivity. Qed.

Lemma title_go_idem (b : bool) (l : list ascii) :
  title_go b (title_go b l) = title_go b l.
Proof.
  revert b. induction l as [|c l IH]; intros b; [done|].
  rewrite !title_go_cons, title_char_idem, is_cased_title_char, IH. done.
Qed.

Lemma drop_while_head {A : Type} (p : A → bool) (l : list A) (x : A) :
  head (drop_while p l) = Some x → p x = false.
Proof.
  induction l as [|y l IH]; simpl; [done|].
  destruct (p y) eqn:E; [done|]. simpl. by intros [= <-].
Qed.

Lemma drop_while_fixed {A : Type} (p : A → bool) (l : list A) :
  (∀ x, head l = Some x → p x = false) → drop_while p l = l.
Proof. destruct l as [|y l]; simpl; [done|]. intros H. by rewrite H. Qed.

Lemma drop_while_last {A : Type} (p : A → bool) (l : list A) :
  drop_while p l ≠ [] → last (drop_while p l) = last l.
Proof.
  induction l as [|y l IH]; simpl; [done|].
  destruct (p y) eqn:E; [|done]. intros H. rewrite IH by done.
  destruct l; [done|]. done.
Qed.

Lemma last_rev {A : Type} (l : list A) : last (rev l) = head l.
Proof. destruct l as [|x l]; [done|]. simpl. apply last_snoc. Qed.

Lemma head_rev {A : Type} (l : list A) : head (rev l) = last l.
Proof. by rewrite <- (rev_involutive l) at 2; rewrite last_rev. Qed.

Lemma strip_with_no_edge (p : ascii → bool) (l : list ascii) :
  no_edge p (strip_with p l).
Proof.
  unfold strip_with. set (m := drop_while p l).
  split; intros x.
  - rewrite head_rev.
    destruct (drop_while p (rev m)) as [|y k] eqn:E; [done|].
    rewrite <- E, drop_while_last by (rewrite E; done).
    rewrite last_rev. apply drop_while_head.
  - rewrite last_rev. apply drop_while_head.
Qed.

Lemma strip_with_fixed (p : ascii → bool) (l : list ascii) :
  no_edge p l → strip_with p l = l.
Proof.
  intros [Hh Hl]. unfold strip_with.
  rewrite (drop_while_fixed p l) by done.
  rewrite (drop_while_fixed p (rev l)).
  - apply rev_involutive.
  - intros x. rewrite head_rev. apply Hl.
Qed.

Lemma last_title_go (b : bool) (l : list ascii) (y : ascii) :
  last (title_go b l) = Some y →
  ∃ x, last l = Some x ∧ is_space y = is_space x.
Proof.
  revert b. induction l as [|c l IH]; intros b; [done|].
  rewrite title_go_cons. destruct l as [|c' l].
  - simpl. intros [= <-]. eexists. split; [done|]. apply is_space_title_char.
  - rewrite title_go_cons, !last_cons_cons. rewrite <- title_go_cons. apply IH.
Qed.

Lemma title_go_no_edge (b : bool) (l : list ascii) :
  no_edge is_space l → no_edge is_space (title_go b l).
Proof.
  intros [Hh Hl]. split; intros y.
  - destruct l as [|c l]; [done|]. simpl. intros [= <-].
    fold (title_char b c). rewrite is_space_title_char. by apply Hh.
  - intros (x & Hx & ->)%last_title_go. by apply Hl.
Qed.

(** On an ASCII text, [s.strip().title()] is a fixed point of [strip] and
    of [title]. *)
Lemma py_strip_title_fixed (s : string) :
  is_ascii_text s = true →
  py_strip (py_title (py_strip s)) = py_title (py_strip s) ∧
  py_title (py_title (py_strip s)) = py_title (py_strip s).
Proof.
  intros _. unfold py_title, py_strip.
  rewrite !list_ascii_of_string_of_list_ascii.
  split.
  - rewrite strip_with_fixed; [done|].
    apply title_go_no_edge, strip_with_no_edge.
  - by rewrite title_go_idem.
Qed.

(** ** [validate_record] and [process_record] on any record *)

(** [process_record] step by step: the name, then the value, then the mark. *)
Lemma process_record_cases (record : pydict) :
  process_record record =
    let named :=
      match record !! "name" with
      | Some name =>
          <["name" := VStr (py_title (py_strip (py_str name)))]> record
      | None => record
      end in
    match record !! "value" with
    | Some value =>
        match py_float value with
        | Ok f =>
            Ok (<["processed" := VBool true]> (<["value" := VFloat f]> named))
        | Raise e => Raise e
        end
    | None => Ok (<["processed" := VBool true]> named)
    end.
Proof.
  unfold process_record, py_in, py_getitem.
  destruct (record !! "name") as [name|] eqn:En.
  - rewrite bool_decide_eq_true_2 by eauto. simpl.
    rewrite lookup_insert_ne by done.
    destruct (record !! "value") as [value|] eqn:Ev.
    + rewrite bool_decide_eq_true_2 by eauto. simpl.
      by destruct (py_float value).
    + rewrite bool_decide_eq_false_2 by (intros [? [=]]). done.
  - rewrite bool_decide_eq_false_2 by (intros [? [=]]). simpl.
    destruct (record !! "value") as [value|] eqn:Ev.
    + rewrite bool_decide_eq_true_2 by eauto. simpl.
      by destruct (py_float value).
    + rewrite bool_decide_eq_false_2 by (intros [? [=]]). done.
Qed.

Lemma float_of_int_raises (z : Z) (e : exc) :
  float_of_int z = Raise e →
  e = Exc OverflowError "int too large to convert to float".
Proof.
  unfold float_of_int.
  by destruct (binary_normalize prec emax z 0 false); intros [= <-].
Qed.

Lemma py_float_classes (v : pyval) (e : exc) :
  py_float v = Raise e →
  exc_cls e = ValueError ∨ exc_cls e = TypeError ∨ exc_cls e = OverflowError.
Proof. intros H. apply py_float_raises in H. tauto. Qed.

Lemma validate_record_false_iff (record : pydict) :
  validate_record record = Ok false ↔
  record !! "id" = None ∨ record !! "name" = None ∨ record !! "value" = None ∨
  ∃ v e, record !! "value" = Some v ∧ py_float v = Raise e ∧
         (exc_cls e = ValueError ∨ exc_cls e = TypeError).
Proof.
  destruct (decide (is_Some (record !! "id") ∧ is_Some (record !! "name")
                    ∧ is_Some (record !! "value"))) as [(Hid & Hn & [v Hv])|N].
  - rewrite (validate_record_complete _ v) by done.
    destruct Hid as [i Hi], Hn as [n Hn]. rewrite Hi, Hn, Hv.
    destruct (py_float v) as [f|e] eqn:Ef.
    + split; [done|]. intros [H|[H|[H|(v' & e & [= <-] & H & _)]]]; congruence.
    + split.
      * intros H. right. right. right. exists v, e. split; [done|]. split; [done|].
        destruct (exc_cls e); try done; auto.
      * intros [H|[H|[H|(v' & e' & [= <-] & Hf & H)]]]; try done.
        rewrite Ef in Hf. injection Hf as <-. by destruct H as [-> | ->].
  - rewrite validate_record_incomplete by done. split; [|done]. intros _.
    destruct (record !! "id"); [|by left].
    destruct (record !! "name"); [|by auto].
    destruct (record !! "value"); [|by auto].
    destruct N. eauto.
Qed.

Lemma validate_record_raise_float (record : pydict) (e : exc) :
  validate_record record = Raise e →
  exc_cls e = OverflowError ∧
  ∃ z, record !! "value" = Some (VInt z) ∧ py_float (VInt z) = Raise e.
Proof.
  intros H.
  destruct (decide (is_Some (record !! "id") ∧ is_Some (record !! "name")
                    ∧ is_Some (record !! "value"))) as [(Hid & Hn & [v Hv])|N].
  - rewrite (validate_record_complete _ v) in H by done.
    destruct (py_float v) as [f|e'] eqn:Ef; [done|].
    pose proof Ef as Ef'.
    apply py_float_raises in Ef as [[Hc _]|[[Hc _]|[Hc [z ->]]]];
      rewrite Hc in H; try done.
    injection H as <-. eauto.
  - by rewrite validate_record_incomplete in H.
Qed.

(** X1: [validate_record] returns [True] exactly on the records that have
    the fields [id], [name] and [value] with a value that [float] accepts;
    it returns [False] exactly when one of the fields is missing or [float]
    raises [ValueError] or [TypeError] on the value; and when it raises, it
    is [float]'s [OverflowError] on an [int] value. *)
Theorem validate_record_decides (record : pydict) :
  (validate_record record = Ok true ↔
   is_Some (record !! "id") ∧ is_Some (record !! "name") ∧
   ∃ v f, record !! "value" = Some v ∧ py_float v = Ok f) ∧
  (validate_record record = Ok false ↔
   record !! "id" = None ∨ record !! "name" = None ∨ record !! "value" = None ∨
   ∃ v e, record !! "value" = Some v ∧ py_float v = Raise e ∧
          (exc_cls e = ValueError ∨ exc_cls e = TypeError)) ∧
  (∀ e, validate_record record = Raise e →
        exc_cls e = OverflowError ∧
        ∃ z, record !! "value" = Some (VInt z) ∧ py_float (VInt z) = Raise e).
Proof.
  split; [apply validate_record_true_iff|].
  split; [apply validate_record_false_iff|].
  apply validate_record_raise_float.
Qed.

Lemma validate_record_other_id_name (record : pydict) (a b : pyval) :
  validate_record (<["id" := a]> (<["name" := b]> record))
  = match record !! "value" with
    | Some v =>
        match py_float v with
        | Ok _ => Ok true
        | Raise e =>
            match exc_cls e with
            | ValueError | TypeError => Ok false
            | _ => Raise e
            end
        end
    | None => Ok false
    end.
Proof.
  destruct (record !! "value") as [v|] eqn:Ev.
  - apply validate_record_complete.
    + rewrite lookup_insert_eq. eauto.
    + rewrite lookup_insert_ne, lookup_insert_eq by done. eauto.
    + by rewrite !lookup_insert_ne.
  - apply validate_record_incomplete. intros (_ & _ & [v Hv]).
    rewrite !lookup_insert_ne in Hv by done. congruence.
Qed.

(** X2: [validate_record] looks at the presence of [id] and [name], not at
    their content: two records that differ only in the values of these two
    fields get the same answer. *)
Theorem validate_record_ignores_id_and_name (record : pydict)
    (id1 name1 id2 name2 : pyval) :
  validate_record (<["id" := id1]> (<["name" := name1]> record))
  = validate_record (<["id" := id2]> (<["name" := name2]> record)).
Proof. by rewrite !validate_record_other_id_name. Qed.

Lemma process_record_returns (record processed : pydict) :
  process_record record = Ok processed →
  processed !! "processed" = Some (VBool true) ∧
  dom processed = dom record ∪ {["processed"]} ∧
  (∀ v, record !! "value" = Some v →
        ∃ f, py_float v = Ok f ∧ processed !! "value" = Some (VFloat f)) ∧
  (∀ name, record !! "name" = Some name →
           processed !! "name"
           = Some (VStr (py_title (py_strip (py_str name))))) ∧
  (record !! "name" = None → processed !! "name" = None) ∧
  (record !! "value" = None → processed !! "value" = None) ∧
  (∀ field, field ≠ "name" → field ≠ "value" → field ≠ "processed" →
            processed !! field = record !! field).
Proof.
  rewrite process_record_cases. simpl.
  set (named := match record !! "name" with
                | Some name => <["name" := _]> record
                | None => record
                end).
  assert (dom named = dom record) as Hdom.
  { unfold named. destruct (record !! "name") eqn:E; [|done].
    apply dom_insert_lookup_L. eauto. }
  assert (∀ field, field ≠ "name" → named !! field = record !! field) as Hother.
  { intros field H. unfold named. destruct (record !! "name"); [|done].
    by rewrite lookup_insert_ne. }
  assert (named !! "name"
          = (λ name, VStr (py_title (py_strip (py_str name))))
              <$> record !! "name") as Hname.
  { unfold named. destruct (record !! "name") eqn:E; simpl; [|done].
    by rewrite lookup_insert_eq. }
  destruct (record !! "value") as [value|] eqn:Ev.
  - destruct (py_float value) as [f|e] eqn:Ef; [|done]. intros [= <-].
    split; [by rewrite lookup_insert_eq|].
    split.
    { rewrite dom_insert_L, dom_insert_lookup_L, Hdom.
      - apply (comm_L (∪)).
      - rewrite Hother by done. eauto. }
    split.
    { intros v [= <-]. exists f. split; [done|].
      by rewrite lookup_insert_ne, lookup_insert_eq. }
    split.
    { intros name Hn. rewrite !lookup_insert_ne, Hname, Hn by done. done. }
    split.
    { intros Hn. rewrite !lookup_insert_ne, Hname, Hn by done. done. }
    split; [done|].
    intros field H1 H2 H3. rewrite !lookup_insert_ne by done. by apply Hother.
  - intros [= <-].
    split; [by rewrite lookup_insert_eq|].
    split; [rewrite dom_insert_L, Hdom; apply (comm_L (∪))|].
    split; [done|].
    split.
    { intros name Hn. rewrite lookup_insert_ne, Hname, Hn by done. done. }
    split.
    { intros Hn. rewrite lookup_insert_ne, Hname, Hn by done. done. }
    split.
    { intros _. rewrite lookup_insert_ne, Hother by done. done. }
    intros field H1 H2 H3. rewrite lookup_insert_ne by done. by apply Hother.
Qed.

Lemma process_record_raises (record : pydict) (e : exc) :
  process_record record = Raise e →
  ∃ v, record !! "value" = Some v ∧ py_float v = Raise e.
Proof.
  rewrite process_record_cases. simpl.
  destruct (record !! "value") as [value|]; [|done].
  destruct (py_float value) as [f|e'] eqn:Ef; [done|].
  intros [= <-]. eauto.
Qed.

(** X3: on any record, validated or not, [process_record] either returns a
    record with the fields of the input and [processed], set to [True], in
    which a [value] that was there is its float, a [name] that was there is
    its text stripped and in title case, and the other fields are unchanged;
    or it raises what [float] raises on the value, which is a [ValueError],
    a [TypeError] or an [OverflowError]. A missing [name] or [value] is
    skipped: there is no [KeyError]. *)
Theorem process_record_any_record (record : pydict) :
  match process_record record with
  | Ok processed =>
      processed !! "processed" = Some (VBool true) ∧
      dom processed = dom record ∪ {["processed"]} ∧
      (∀ v, record !! "value" = Some v →
            ∃ f, py_float v = Ok f ∧ processed !! "value" = Some (VFloat f)) ∧
      (∀ name, record !! "name" = Some name →
               processed !! "name"
               = Some (VStr (py_title (py_strip (py_str name))))) ∧
      (∀ field, field ≠ "name" → field ≠ "value" → field ≠ "processed" →
                processed !! field = record !! field)
  | Raise e =>
      (∃ v, record !! "value" = Some v ∧ py_float v = Raise e) ∧
      (exc_cls e = ValueError ∨ exc_cls e = TypeError
       ∨ exc_cls e = OverflowError)
  end.
Proof.
  destruct (process_record record) as [processed|e] eqn:E.
  - destruct (process_record_returns record processed E)
      as (H1 & H2 & H3 & H4 & _ & _ & H5). done.
  - destruct (process_record_raises record e E) as (v & Hv & Hf).
    split; [eauto|]. by apply (py_float_classes v).
Qed.

(** X4: on a record whose name, when it has one, is written in 7-bit
    ASCII, [process_record] is idempotent: the record that it returns is
    returned unchanged when it is processed again. *)
Theorem process_record_idempotent (record processed : pydict) :
  (∀ name, record !! "name" = Some name → is_ascii_text (py_str name) = true) →
  process_record record = Ok processed →
  process_record processed = Ok processed.
Proof.
  intros Hascii H.
  destruct (process_record_returns record processed H)
    as (Hp & _ & Hv & Hn & Hn0 & Hv0 & _).
  rewrite process_record_cases. simpl.
  assert (match processed !! "name" with
          | Some name =>
              <["name" := VStr (py_title (py_strip (py_str name)))]> processed
          | None => processed
          end = processed) as ->.
  { destruct (record !! "name") as [name|] eqn:En.
    - rewrite (Hn name) by done. simpl.
      destruct (py_strip_title_fixed (py_str name) (Hascii name eq_refl))
        as [-> ->].
      apply insert_id. by apply Hn.
    - by rewrite Hn0. }
  destruct (record !! "value") as [value|] eqn:Ev.
  - destruct (Hv value eq_refl) as (f & _ & Hpv). rewrite Hpv. simpl.
    rewrite (insert_id processed "value") by done.
    by rewrite insert_id.
  - rewrite Hv0 by done. by rewrite insert_id.
Qed.

(** X5: what [process_record] makes of a record that [validate_record]
    accepts is accepted by [validate_record] again. *)
Theorem processed_record_validates (record processed : pydict) :
  validate_record record = Ok true →
  process_record record = Ok processed →
  validate_record processed = Ok true.
Proof.
  intros (Hid & [name Hn] & v & f & Hv & Hf)%validate_record_true_iff H.
  destruct (process_record_returns record processed H)
    as (_ & _ & Hv' & Hn' & _ & _ & Hother).
  apply validate_record_true_iff.
  split; [by rewrite Hother|].
  split; [rewrite (Hn' name) by done; eauto|].
  destruct (Hv' v Hv) as (f' & _ & Hf'). by exists (VFloat f'), f'.
Qed.

(** X6: on a record that has the three fields, the answer of
    [validate_record] goes by the type of the value: [None] is refused; a
    [bool] and a [float], a nan or an infinity too, are accepted; a [str]
    is accepted exactly when [float] can read it; an [int] is accepted when
    it is within the range of a double, and makes [validate_record] raise
    when it is not. *)
Theorem validate_record_by_type (record : pydict) (v : pyval) :
  is_Some (record !! "id") → is_Some (record !! "name") →
  record !! "value" = Some v →
  validate_record record =
    match v with
    | VNone => Ok false
    | VBool _ | VFloat _ => Ok true
    | VStr s => Ok (bool_decide (is_Some (float_of_string s)))
    | VInt z =>
        match float_of_int z with
        | Ok _ => Ok true
        | Raise e => Raise e
        end
    end.
Proof.
  intros Hid Hn Hv. rewrite (validate_record_complete record v) by done.
  destruct v as [|b|z|f|s]; cbn [py_float].
  - done.
  - by destruct b.
  - destruct (float_of_int z) as [f|e] eqn:E; [done|].
    by rewrite (float_of_int_raises z e E).
  - done.
  - destruct (float_of_string s) as [f|]; cbn [exc_cls].
    + by rewrite bool_decide_eq_true_2 by eauto.
    + by rewrite bool_decide_eq_false_2 by (by intros [? [=]]).
Qed.

(** ** The loop of [process_batch], row by row *)

Lemma validated_is_processed (record : pydict) :
  validate_record record = Ok true →
  ∃ processed, process_record record = Ok processed.
Proof.
  intros (_ & [name Hn] & v & f & Hv & Hf)%validate_record_true_iff.
  eexists. by apply (process_record_complete _ name v f).
Qed.

Lemma row_record_message (row : Z * pydict) :
  match row_record row with
  | Some _ => row_message row = None
  | None => is_Some (row_message row)
  end.
Proof.
  unfold row_record, row_message.
  destruct (validate_record row.2) as [[|]|e]; eauto.
  destruct (process_record row.2); eauto.
Qed.

Lemma process_row_by_row (st : batch_state) (row : Z * pydict) :
  process_row st row =
    mkState (n_processed st + Z.of_nat (length (option_list (row_record row))))
            (n_failed st + Z.of_nat (length (option_list (row_message row))))
            (messages st ++ option_list (row_message row))
            (valid_records st ++ option_list (row_record row)).
Proof.
  destruct st as [np nf ms vs], row as [idx record].
  unfold process_row, row_record, row_message, record_failed. simpl.
  destruct (validate_record record) as [[|]|e]; simpl.
  - destruct (process_record record); simpl;
      rewrite ?app_nil_r, ?Z.add_0_r; done.
  - by rewrite app_nil_r, Z.add_0_r.
  - by rewrite app_nil_r, Z.add_0_r.
Qed.

Lemma omap_cons_app {A B : Type} (f : A → option B) (x : A) (l : list A) :
  omap f (x :: l) = option_list (f x) ++ omap f l.
Proof. simpl. by destruct (f x). Qed.

Lemma foldl_process_row (df : DataFrame) (st : batch_state) :
  foldl process_row st df =
    mkState (n_processed st + Z.of_nat (length (omap row_record df)))
            (n_failed st + Z.of_nat (length (omap row_message df)))
            (messages st ++ omap row_message df)
            (valid_records st ++ omap row_record df).
Proof.
  revert st. induction df as [|row df IH]; intros st.
  - destruct st. simpl. by rewrite !app_nil_r, !Z.add_0_r.
  - simpl foldl. rewrite IH, process_row_by_row, !omap_cons_app.
    cbn [n_processed n_failed messages valid_records].
    rewrite !length_app, <- !app_assoc. f_equal; lia.
Qed.

Lemma process_rows_eq (df : DataFrame) :
  process_rows df =
    mkState (Z.of_nat (length (omap row_record df)))
            (Z.of_nat (length (omap row_message df)))
            (omap row_message df) (omap row_record df).
Proof. unfold process_rows. by rewrite foldl_process_row. Qed.

Lemma omap_row_lengths (df : DataFrame) :
  (length (omap row_record df) + length (omap row_message df) = length df)%nat.
Proof.
  induction df as [|row df IH]; [done|].
  rewrite !omap_cons_app, !length_app. cbn [length].
  pose proof (row_record_message row) as H.
  destruct (row_record row).
  - rewrite H. cbn [option_list option_rect length]. lia.
  - destruct H as [msg ->]. cbn [option_list option_rect length]. lia.
Qed.

Lemma row_by_validation (row : Z * pydict) :
  match validate_record row.2 with
  | Ok true =>
      ∃ processed, process_record row.2 = Ok processed ∧
                   row_record row = Some processed ∧ row_message row = None
  | Ok false =>
      row_record row = None ∧
      row_message row = Some ("Validation failed for record " +:+ pretty row.1)
  | Raise e =>
      exc_cls e = OverflowError ∧ row_record row = None ∧
      row_message row
      = Some ("Error processing record " +:+ pretty row.1
              +:+ ": int too large to convert to float")
  end.
Proof.
  unfold row_record, row_message.
  destruct (validate_record row.2) as [[|]|e] eqn:E.
  - destruct (validated_is_processed _ E) as [processed ->]. eauto.
  - done.
  - destruct (validate_record_raise_float _ _ E) as (Hc & z & _ & Hf).
    apply float_of_int_raises in Hf as ->. done.
Qed.

(** X7: the loop of [process_batch] keeps, in the order of the rows, one
    processed record for each row that [validate_record] accepts
    ([process_record] does not fail on such a row) and one message for each
    other row; the message is [Validation failed for record <label>] when
    [validate_record] returned [False], and [Error processing record
    <label>: int too large to convert to float] when it raised. The counts
    of the loop are the numbers of these records and messages. *)
Theorem process_rows_by_row (df : DataFrame) :
  valid_records (process_rows df) = omap row_record df ∧
  messages (process_rows df) = omap row_message df ∧
  n_processed (process_rows df) = Z.of_nat (length (omap row_record df)) ∧
  n_failed (process_rows df) = Z.of_nat (length (omap row_message df)) ∧
  ∀ row : Z * pydict,
    match validate_record row.2 with
    | Ok true =>
        ∃ processed, process_record row.2 = Ok processed ∧
                     row_record row = Some processed ∧ row_message row = None
    | Ok false =>
        row_record row = None ∧
        row_message row
        = Some ("Validation failed for record " +:+ pretty row.1)
    | Raise e =>
        exc_cls e = OverflowError ∧ row_record row = None ∧
        row_message row
        = Some ("Error processing record " +:+ pretty row.1
                +:+ ": int too large to convert to float")
    end.
Proof.
  rewrite process_rows_eq. simpl. repeat (split; [done|]).
  apply row_by_validation.
Qed.

Lemma row_record_storable (row : Z * pydict) (r : pydict) :
  row_record row = Some r → storable r.
Proof.
  unfold row_record.
  destruct (validate_record row.2) as [[|]|e] eqn:E; try done.
  destruct (process_record row.2) as [processed|e] eqn:P; [|done].
  intros [= <-].
  apply validate_record_true_iff in E as (Hid & [name Hn] & v & f & Hv & Hf).
  destruct (process_record_returns _ _ P) as (Hp & _ & Hv' & Hn' & _ & _ & Ho).
  split; [by rewrite Ho|]. split; [|split; [|done]].
  - eexists. by apply Hn'.
  - destruct (Hv' v Hv) as (f' & _ & H). eauto.
Qed.

Lemma omap_row_record_storable (df : DataFrame) :
  Forall storable (omap row_record df).
Proof.
  apply Forall_forall. intros r (row & _ & H)%list_elem_of_omap.
  by apply (row_record_storable row).
Qed.

Lemma length_eqb_nil (l : list string) :
  (Z.of_nat (length l) =? 0) = bool_decide (l = []).
Proof.
  destruct l as [|x l]; [done|].
  rewrite bool_decide_eq_false_2 by done. apply Z.eqb_neq. simpl length. lia.
Qed.

Section BatchShape.

Context {Engine DB : Type}.
Variable execute : Engine → DB → list pydict → DB * option exc.

Lemma process_batch_database (self : DataProcessor Engine) (db : DB)
    (df : DataFrame) :
  (process_batch execute self db df).1 =
    match omap row_record df with
    | [] => db
    | valid => (execute (engine self) db valid).1
    end.
Proof.
  unfold process_batch. rewrite process_rows_eq. simpl.
  destruct (omap row_record df) as [|r valid]; [done|].
  unfold store_batch.
  destruct (execute (engine self) db (r :: valid)) as [db' [e|]]; done.
Qed.

(** X8: [process_batch] runs at most one transaction: none when no row of
    the batch is valid (the database is left as it is, whether it can be
    reached or not), and otherwise one, on the processed records of the
    valid rows in the order of the rows. Every record of the transaction has
    an [id], a [name] that is a text, a [value] that is a float, and
    [processed] set to [True]. *)
Theorem process_batch_one_transaction (self : DataProcessor Engine) (db : DB)
    (df : DataFrame) :
  (process_batch execute self db df).1 =
    match omap row_record df with
    | [] => db
    | valid => (execute (engine self) db valid).1
    end ∧
  Forall storable (omap row_record df) ∧
  (length (omap row_record df) ≤ length df)%nat.
Proof.
  split; [apply process_batch_database|].
  split; [apply omap_row_record_storable|].
  pose proof (omap_row_lengths df). lia.
Qed.

Lemma process_batch_outcome (self : DataProcessor Engine) (db : DB)
    (df : DataFrame) :
  let valid := omap row_record df in
  let failed := omap row_message df in
  (process_batch execute self db df).2 =
    match valid with
    | [] => Ok (mkResult (bool_decide (failed = [])) 0
                  (Z.of_nat (length failed)) failed)
    | _ =>
        match (execute (engine self) db valid).2 with
        | None =>
            Ok (mkResult (bool_decide (failed = []))
                  (Z.of_nat (length valid)) (Z.of_nat (length failed)) failed)
        | Some e =>
            Ok (mkResult false 0 (Z.of_nat (length df))
                  (failed ++ ["Database storage failed: Failed to store batch: "
                              +:+ exc_msg e]))
        end
    end.
Proof.
  cbv zeta. unfold process_batch. rewrite process_rows_eq.
  cbn [valid_records].
  pose proof (length_eqb_nil (omap row_message df)) as Hb.
  pose proof (omap_row_lengths df) as Hlen.
  destruct (omap row_record df) as [|r valid] eqn:Ev.
  - unfold batch_result. cbn [snd n_processed n_failed messages].
    by rewrite Hb.
  - unfold store_batch.
    destruct (execute (engine self) db (r :: valid)) as [db' [e|]];
      unfold batch_result;
      cbn [snd exc_cls exc_msg n_processed n_failed messages valid_records].
    + f_equal. f_equal; [|lia|lia]. apply Z.eqb_neq. cbn [length] in *. lia.
    + by rewrite Hb.
Qed.

Lemma process_batch_coherent (self : DataProcessor Engine) (db : DB)
    (df : DataFrame) :
  ∃ r, (process_batch execute self db df).2 = Ok r ∧ coherent r ∧
       records_processed r + records_failed r = Z.of_nat (length df).
Proof.
  pose proof (process_batch_outcome self db df) as H. cbv zeta in H.
  pose proof (omap_row_lengths df) as Hlen.
  pose proof (length_eqb_nil (omap row_message df)) as Hb.
  assert (omap row_message df = [] → Z.of_nat (length (omap row_message df)) = 0)
    as Hnil by (by intros ->).
  destruct (omap row_record df) as [|r valid] eqn:Ev.
  - eexists. split; [exact H|]. unfold coherent.
    cbn [records_processed records_failed errors success length] in *.
    repeat split; try lia; [exact Hnil | by rewrite Hb].
  - cbn [length] in Hlen.
    destruct (execute (engine self) db (r :: valid)).2 as [e|].
    + eexists. split; [exact H|]. unfold coherent.
      cbn [records_processed records_failed errors success].
      rewrite length_app. cbn [length].
      repeat split; try lia.
      by intros [_ [=]]%app_eq_nil.
    + eexists. split; [exact H|]. unfold coherent.
      cbn [records_processed records_failed errors success length].
      repeat split; try lia; [exact Hnil | by rewrite Hb].
Qed.

(** X9: the result of [process_batch] is coherent: its processed count is
    between zero and the number of rows, it has at least one failed record
    per message, it has no message exactly when its success flag is true,
    and the flag says that the failed count is zero. When the transaction
    fails with [e], every row of the batch is counted as failed and none
    as processed, and the messages of the rows are followed by [Database
    storage failed: Failed to store batch: <e>]. *)
Theorem process_batch_result_shape (self : DataProcessor Engine) (db : DB)
    (df : DataFrame) :
  ∃ r : ProcessingResult,
    (process_batch execute self db df).2 = Ok r ∧
    0 ≤ records_processed r ≤ Z.of_nat (length df) ∧
    records_processed r + records_failed r = Z.of_nat (length df) ∧
    Z.of_nat (length (errors r)) ≤ records_failed r ∧
    (success r = true ↔ errors r = []) ∧
    (success r = true ↔ records_failed r = 0) ∧
    (∀ e : exc,
       omap row_record df ≠ [] →
       (execute (engine self) db (omap row_record df)).2 = Some e →
       records_processed r = 0 ∧ records_failed r = Z.of_nat (length df) ∧
       errors r
       = omap row_message df
           ++ ["Database storage failed: Failed to store batch: "
               +:+ exc_msg e]).
Proof.
  destruct (process_batch_coherent self db df) as (r & Hr & (H1 & H2 & H3 & H4) & H5).
  exists r. split; [done|]. split; [lia|]. split; [done|]. split; [done|].
  split; [|split].
  - rewrite H4, Z.eqb_eq. split; [|done]. intros H0.
    destruct (errors r); [done|]. simpl in H2. lia.
  - by rewrite H4, Z.eqb_eq.
  - intros e Hne He. pose proof (process_batch_outcome self db df) as H.
    cbv zeta in H. destruct (omap row_record df); [done|].
    rewrite He in H. rewrite Hr in H. injection H as ->. done.
Qed.

End BatchShape.

(** ** The runs: what holds of every result *)

Lemma add_result_coherent (t : totals) (r : ProcessingResult) :
  coherent (run_result t) → coherent r →
  coherent (run_result (add_result t r)).
Proof.
  unfold coherent, run_result, add_result. simpl.
  intros (H1 & H2 & H3 & _) (K1 & K2 & K3 & _).
  rewrite length_app. repeat split; try lia.
  intros [Ht Hr]%app_eq_nil. rewrite H3, K3 by done. done.
Qed.

Lemma foldl_add_result_coherent (rs : list ProcessingResult) (t : totals) :
  Forall coherent rs → coherent (run_result t) →
  coherent (run_result (foldl add_result t rs)).
Proof.
  intros H. revert t. induction H as [|r rs Hr _ IH]; intros t Ht; [done|].
  simpl. apply IH. by apply add_result_coherent.
Qed.

Lemma foldl_collect_coherent (done : futures) (l : list nat) (t : totals) :
  (∀ i outcome, done !! i = Some outcome → ∃ r, outcome = Ok r ∧ coherent r) →
  coherent (run_result t) →
  coherent (run_result (foldl (collect done) t l)).
Proof.
  intros Hdone. revert t. induction l as [|i l IH]; intros t Ht; [done|].
  simpl. apply IH. unfold collect.
  destruct (done !! i) as [outcome|] eqn:E; [|done].
  destruct (Hdone i outcome E) as (r & -> & Hr).
  by apply add_result_coherent.
Qed.

Lemma coherent_zero : coherent (run_result (mkTotals 0 0 [])).
Proof. unfold coherent. simpl. repeat split; lia. Qed.

Lemma sum_of_lengths {A B : Type} (f : A → option B) (ls : list (list A)) :
  Zsum ((λ l, Z.of_nat (length (omap f l))) <$> ls)
  = Z.of_nat (length (omap f (concat ls))).
Proof.
  induction ls as [|l ls IH]; [done|].
  rewrite fmap_cons, Zsum_cons, IH.
  change (concat (l :: ls)) with (l ++ concat ls).
  rewrite omap_app, length_app. lia.
Qed.

Lemma concat_omap {A B : Type} (f : A → option B) (ls : list (list A)) :
  concat ((λ l : list A, omap f l) <$> ls) = omap f (concat ls).
Proof.
  induction ls as [|l ls IH]; [done|].
  rewrite fmap_cons. change (concat (l :: ls)) with (l ++ concat ls).
  rewrite omap_app, <- IH. done.
Qed.

(** The batches of a file added up are the file as one batch. *)
Lemma add_batch_results (batches : list DataFrame) :
  run_result (foldl add_result (mkTotals 0 0 [])
                ((λ df, batch_result (process_rows df)) <$> batches))
  = batch_result (process_rows (concat batches)).
Proof.
  destruct (foldl_add_result
              ((λ df, batch_result (process_rows df)) <$> batches)
              (mkTotals 0 0 [])) as (H1 & H2 & H3).
  unfold run_result. rewrite H1, H2, H3. clear H1 H2 H3.
  rewrite <- !list_fmap_compose.
  rewrite (list_fmap_ext
             (records_processed ∘ (λ df, batch_result (process_rows df)))
             (λ df, Z.of_nat (length (omap row_record df))) batches)
    by (intros i df _; simpl; by rewrite process_rows_eq).
  rewrite (list_fmap_ext
             (records_failed ∘ (λ df, batch_result (process_rows df)))
             (λ df, Z.of_nat (length (omap row_message df))) batches)
    by (intros i df _; simpl; by rewrite process_rows_eq).
  rewrite (list_fmap_ext
             (errors ∘ (λ df, batch_result (process_rows df)))
             (λ df, omap row_message df) batches)
    by (intros i df _; simpl; by rewrite process_rows_eq).
  rewrite !sum_of_lengths, concat_omap, process_rows_eq.
  unfold batch_result. simpl. done.
Qed.

Section RunShape.

Context {Engine DB : Type}.
Variable execute : Engine → DB → list pydict → DB * option exc.

(** What holds of the result of [process_batch] on every database holds of
    the outcomes of the batches run one after the other. *)
Lemma run_in_order_outcomes (P : DataFrame → ProcessingResult → Prop)
    (self : DataProcessor Engine) :
  (∀ db df, ∃ r, (process_batch execute self db df).2 = Ok r ∧ P df r) →
  ∀ batches db,
    Forall2 (λ batch outcome, ∃ r, outcome = Ok r ∧ P batch r)
            batches (run_in_order execute self db batches).2.
Proof.
  intros HP batches. induction batches as [|batch rest IH]; intros db; simpl.
  - constructor.
  - destruct (HP db batch) as (r & Hr & HPr).
    destruct (process_batch execute self db batch) as [db1 outcome].
    simpl in Hr. subst outcome. specialize (IH db1).
    destruct (run_in_order execute self db1 rest) as [db2 outcomes].
    simpl in *. constructor; eauto.
Qed.

(** And of the futures that the workers leave, in whatever order they run. *)
Lemma run_workers_outcomes (P : DataFrame → ProcessingResult → Prop)
    (self : DataProcessor Engine) (batches : list DataFrame) :
  (∀ db df, ∃ r, (process_batch execute self db df).2 = Ok r ∧ P df r) →
  ∀ order db done,
    (∀ i outcome, done !! i = Some outcome →
       ∃ batch r, batches !! i = Some batch ∧ outcome = Ok r ∧ P batch r) →
    ∀ i outcome,
      (run_workers execute self batches db order done).2 !! i = Some outcome →
      ∃ batch r, batches !! i = Some batch ∧ outcome = Ok r ∧ P batch r.
Proof.
  intros HP order. induction order as [|j order IH]; intros db done Hdone.
  - done.
  - simpl. destruct (batches !! j) as [batch|] eqn:Ej; [|by apply IH].
    destruct (HP db batch) as (r & Hr & HPr).
    destruct (process_batch execute self db batch) as [db1 outcome].
    simpl in Hr. subst outcome. apply IH.
    intros i outcome. destruct (decide (j = i)) as [<-|Hne].
    + rewrite lookup_insert_eq. intros [= <-]. eauto.
    + rewrite lookup_insert_ne by done. apply Hdone.
Qed.

(** Every batch that the workers were given to run has a future. *)
Lemma run_workers_ran (self : DataProcessor Engine)
    (batches : list DataFrame) (order : list nat) (db : DB) (i : nat) :
  i ∈ order → (i < length batches)%nat →
  is_Some ((run_workers execute self batches db order ∅).2 !! i).
Proof.
  intros Hi Hlt.
  destruct (run_workers_returns execute self batches order db ∅)
    as (db' & done' & -> & _ & Hsome & _).
  { intros j outcome. by rewrite lookup_empty. }
  by apply Hsome.
Qed.

Lemma process_file_sequential_result (self : DataProcessor Engine)
    (fs : filesystem) (db : DB) (file_path : string)
    (batches : list DataFrame) :
  read_csv_batches self fs file_path = Ok batches →
  process_file_sequential execute self fs db file_path =
    ((run_in_order execute self db batches).1,
     Ok (run_result
           (foldl add_result (mkTotals 0 0 [])
              (returned <$> (run_in_order execute self db batches).2)))).
Proof.
  intros Hread. unfold process_file_sequential.
  by rewrite Hread, sequential_loop_spec.
Qed.

Lemma process_file_parallel_result (self : DataProcessor Engine)
    (fs : filesystem) (db : DB) (file_path : string)
    (batches : list DataFrame) (pool : schedule) :
  read_csv_batches self fs file_path = Ok batches →
  process_file_parallel execute self fs db file_path pool =
    ((run_workers execute self batches db (run_order pool) ∅).1,
     Ok (run_result
           (foldl (collect
                     (run_workers execute self batches db (run_order pool) ∅).2)
                  (mkTotals 0 0 []) (completion_order pool)))).
Proof.
  intros Hread. unfold process_file_parallel. rewrite Hread.
  by destruct (run_workers execute self batches db (run_order pool) ∅).
Qed.

Lemma read_csv_batches_raises (self : DataProcessor Engine)
    (fs : filesystem) (file_path : string) (e : exc) :
  read_csv_batches self fs file_path = Raise e →
  exc_cls e = FileProcessingError.
Proof.
  unfold read_csv_batches. destruct (fs !! file_path) as [file|].
  - destruct (pd_read_csv file (batch_size self)); [done|]. by intros [= <-].
  - by intros [= <-].
Qed.

Lemma process_file_sequential_coherent (self : DataProcessor Engine)
    (fs : filesystem) (db : DB) (file_path : string) :
  match (process_file_sequential execute self fs db file_path).2 with
  | Ok r => coherent r
  | Raise e => exc_cls e = FileProcessingError
  end.
Proof.
  destruct (read_csv_batches self fs file_path) as [batches|e] eqn:Hread.
  - rewrite (process_file_sequential_result self fs db file_path batches Hread).
    simpl. apply foldl_add_result_coherent; [|apply coherent_zero].
    pose proof (run_in_order_outcomes (λ _ r, coherent r) self) as H.
    apply Forall_fmap.
    eapply Forall2_Forall_r; [apply (H ltac:(intros db0 df;
      destruct (process_batch_coherent execute self db0 df) as (r & ? & ? & _);
      eauto) batches db)|].
    apply Forall_forall. intros batch _ outcome (r & -> & Hr). done.
  - unfold process_file_sequential. rewrite Hread. simpl.
    by apply (read_csv_batches_raises self fs file_path).
Qed.

Lemma process_file_parallel_coherent (self : DataProcessor Engine)
    (fs : filesystem) (db : DB) (file_path : string) (pool : schedule) :
  match (process_file_parallel execute self fs db file_path pool).2 with
  | Ok r => coherent r
  | Raise e => exc_cls e = FileProcessingError
  end.
Proof.
  destruct (read_csv_batches self fs file_path) as [batches|e] eqn:Hread.
  - rewrite (process_file_parallel_result self fs db file_path batches pool
               Hread).
    simpl. apply foldl_collect_coherent; [|apply coherent_zero].
    intros i outcome Ho.
    destruct (run_workers_outcomes (λ _ r, coherent r) self batches
                ltac:(intros db0 df;
                      destruct (process_batch_coherent execute self db0 df)
                        as (r & ? & ? & _); eauto)
                (run_order pool) db ∅
                ltac:(intros j o; by rewrite lookup_empty) i outcome Ho)
      as (batch & r & _ & -> & Hr).
    eauto.
  - unfold process_file_parallel. rewrite Hread. simpl.
    by apply (read_csv_batches_raises self fs file_path).
Qed.

(** X10: a run, sequential or parallel and whatever the schedule of the
    pool, either raises the reader's [FileProcessingError] or returns a
    result that is coherent: the processed count is not negative, there is
    at least one failed record per message, and the success flag is true
    exactly when no record failed, which is exactly when there is no
    message. *)
Theorem run_result_shape (self : DataProcessor Engine) (fs : filesystem)
    (db : DB) (file_path : string) (pool : schedule) :
  let shape (outcome : result ProcessingResult) :=
    match outcome with
    | Ok r =>
        0 ≤ records_processed r ∧
        Z.of_nat (length (errors r)) ≤ records_failed r ∧
        (success r = true ↔ records_failed r = 0) ∧
        (success r = true ↔ errors r = [])
    | Raise e => exc_cls e = FileProcessingError
    end in
  shape (process_file_sequential execute self fs db file_path).2 ∧
  shape (process_file_parallel execute self fs db file_path pool).2.
Proof.
  assert (∀ r, coherent r →
            0 ≤ records_processed r ∧
            Z.of_nat (length (errors r)) ≤ records_failed r ∧
            (success r = true ↔ records_failed r = 0) ∧
            (success r = true ↔ errors r = [])) as Hshape.
  { intros r (H1 & H2 & H3 & H4). split; [done|]. split; [done|].
    rewrite H4, Z.eqb_eq. split; [done|]. split; [|done].
    intros H0. destruct (errors r); [done|]. simpl in H2. lia. }
  cbv zeta. split.
  - pose proof (process_file_sequential_coherent self fs db file_path) as H.
    destruct (process_file_sequential _ _ _ _ _).2; [by apply Hshape|done].
  - pose proof (process_file_parallel_coherent self fs db file_path pool) as H.
    destruct (process_file_parallel _ _ _ _ _ _).2; [by apply Hshape|done].
Qed.

End RunShape.

(** ** The runs and the store *)

Lemma Forall2_outcomes (P : DataFrame → ProcessingResult)
    (batches : list DataFrame) (outcomes : list (result ProcessingResult)) :
  Forall2 (λ batch outcome, ∃ r, outcome = Ok r ∧ r = P batch)
          batches outcomes →
  returned <$> outcomes = P <$> batches.
Proof.
  induction 1 as [|batch outcome batches outcomes (r & -> & ->) _ IH]; [done|].
  rewrite !fmap_cons, IH. done.
Qed.

Lemma lookup_total_fmap_seq {A B : Type} (f : A → B) (d : A) (l : list A) :
  (λ i, f (default d (l !! i))) <$> seq 0 (length l) = f <$> l.
Proof.
  apply list_eq. intros i. rewrite !list_lookup_fmap.
  destruct (decide (i < length l)%nat) as [Hi|Hi].
  - rewrite lookup_seq_lt by done. simpl.
    destruct (lookup_lt_is_Some_2 l i Hi) as [x ->]. done.
  - rewrite lookup_seq_ge by lia.
    rewrite (proj2 (lookup_ge_None l i)) by lia. done.
Qed.

Section RunAndStore.

Context {Engine DB : Type}.
Variable execute : Engine → DB → list pydict → DB * option exc.

Lemma process_batch_reliable (self : DataProcessor Engine) (db : DB)
    (df : DataFrame) :
  reliable execute →
  (process_batch execute self db df).2 = Ok (batch_result (process_rows df)).
Proof.
  intros Hrel. pose proof (process_batch_outcome execute self db df) as H.
  cbv zeta in H. rewrite H, process_rows_eq. unfold batch_result.
  cbn [n_processed n_failed messages].
  rewrite length_eqb_nil.
  destruct (omap row_record df) as [|r valid] eqn:Ev; [done|].
  by rewrite Hrel.
Qed.

Lemma process_batch_fails_by_batch (self : DataProcessor Engine)
    (db1 db2 : DB) (df : DataFrame) :
  fails_by_batch execute →
  (process_batch execute self db1 df).2 = (process_batch execute self db2 df).2.
Proof.
  intros Hind.
  pose proof (process_batch_outcome execute self db1 df) as H1.
  pose proof (process_batch_outcome execute self db2 df) as H2.
  cbv zeta in H1, H2. rewrite H1, H2.
  destruct (omap row_record df) as [|r valid]; [done|].
  by rewrite (Hind (engine self) db1 db2).
Qed.

(** With a store whose failures depend on the batch only, the result of a
    batch is a function of the batch. *)
Lemma process_batch_function (self : DataProcessor Engine) (db0 : DB) :
  fails_by_batch execute →
  ∀ db df, ∃ r,
    (process_batch execute self db df).2 = Ok r ∧
    r = returned (process_batch execute self db0 df).2.
Proof.
  intros Hind db df.
  rewrite (process_batch_fails_by_batch self db db0 df Hind).
  destruct (process_batch_coherent execute self db0 df) as (r & -> & _).
  eauto.
Qed.

Lemma sequential_by_batch (self : DataProcessor Engine) (fs : filesystem)
    (db : DB) (file_path : string) (batches : list DataFrame)
    (f : DataFrame → ProcessingResult) :
  read_csv_batches self fs file_path = Ok batches →
  (∀ db df, ∃ r, (process_batch execute self db df).2 = Ok r ∧ r = f df) →
  (process_file_sequential execute self fs db file_path).2
  = Ok (run_result (foldl add_result (mkTotals 0 0 []) (f <$> batches))).
Proof.
  intros Hread Hf.
  rewrite (process_file_sequential_result execute self fs db file_path batches
             Hread). simpl.
  by rewrite (Forall2_outcomes f batches _
                (run_in_order_outcomes execute (λ df r, r = f df) self Hf
                   batches db)).
Qed.

Lemma parallel_by_batch (self : DataProcessor Engine) (fs : filesystem)
    (db : DB) (file_path : string) (batches : list DataFrame)
    (f : DataFrame → ProcessingResult) (pool : schedule) :
  read_csv_batches self fs file_path = Ok batches →
  (∀ db df, ∃ r, (process_batch execute self db df).2 = Ok r ∧ r = f df) →
  fair_schedule (length batches) pool →
  (process_file_parallel execute self fs db file_path pool).2
  = Ok (run_result
          (foldl add_result (mkTotals 0 0 [])
             ((λ i, f (default [] (batches !! i))) <$> completion_order pool))).
Proof.
  intros Hread Hf [Hrun Hdone].
  rewrite (process_file_parallel_result execute self fs db file_path batches
             pool Hread). simpl. f_equal. f_equal.
  apply foldl_collect. intros i Hi.
  rewrite Hdone in Hi. apply elem_of_seq in Hi.
  destruct (run_workers_ran execute self batches (run_order pool) db i)
    as [outcome Ho].
  { rewrite Hrun. apply elem_of_seq. lia. }
  { lia. }
  rewrite Ho.
  destruct (run_workers_outcomes execute (λ df r, r = f df) self batches Hf
              (run_order pool) db ∅
              ltac:(intros j o; by rewrite lookup_empty) i outcome Ho)
    as (batch & r & Hb & -> & ->).
  by rewrite Hb.
Qed.

Lemma sequential_reliable (self : DataProcessor Engine) (fs : filesystem)
    (db : DB) (file_path : string) (batches : list DataFrame) :
  reliable execute →
  read_csv_batches self fs file_path = Ok batches →
  (process_file_sequential execute self fs db file_path).2
  = Ok (batch_result (process_rows (concat batches))).
Proof.
  intros Hrel Hread.
  rewrite (sequential_by_batch self fs db file_path batches
             (λ df, batch_result (process_rows df)) Hread).
  - by rewrite add_batch_results.
  - intros db0 df. eexists. split; [by apply process_batch_reliable|done].
Qed.

(** X11: with a store that never fails, the result of the sequential run
    is the result of the loop of [process_batch] on the rows of all the
    batches that the reader yielded, taken in order as one frame: its
    processed count is the number of rows that [validate_record] accepts,
    its failed count is the number of the other rows, and its messages are
    those of the other rows in the order of the rows. *)
Theorem sequential_run_one_loop (self : DataProcessor Engine)
    (fs : filesystem) (db : DB) (file_path : string)
    (batches : list DataFrame) :
  reliable execute →
  read_csv_batches self fs file_path = Ok batches →
  ∃ r : ProcessingResult,
    (process_file_sequential execute self fs db file_path).2 = Ok r ∧
    r = batch_result (process_rows (concat batches)) ∧
    records_processed r
      = Z.of_nat (length (omap row_record (concat batches))) ∧
    records_failed r
      = Z.of_nat (length (omap row_message (concat batches))) ∧
    errors r = omap row_message (concat batches).
Proof.
  intros Hrel Hread. eexists.
  split; [by apply (sequential_reliable self fs db file_path batches)|].
  split; [done|]. by rewrite process_rows_eq.
Qed.

(** The counts of an accumulated result do not depend on the order in
    which the results of the batches came in; its messages come in that
    order. *)
Lemma run_result_perm (rs rs' : list ProcessingResult) :
  rs ≡ₚ rs' →
  counts (run_result (foldl add_result (mkTotals 0 0 []) rs))
  = counts (run_result (foldl add_result (mkTotals 0 0 []) rs')) ∧
  errors (run_result (foldl add_result (mkTotals 0 0 []) rs))
  ≡ₚ errors (run_result (foldl add_result (mkTotals 0 0 []) rs')).
Proof.
  intros Hperm.
  destruct (foldl_add_result rs (mkTotals 0 0 [])) as (H1 & H2 & H3).
  destruct (foldl_add_result rs' (mkTotals 0 0 [])) as (K1 & K2 & K3).
  unfold counts, run_result. simpl.
  rewrite H1, H2, H3, K1, K2, K3. simpl.
  rewrite (Zsum_perm _ _ (fmap_Permutation records_processed _ _ Hperm)).
  rewrite (Zsum_perm _ _ (fmap_Permutation records_failed _ _ Hperm)).
  split; [done|].
  apply concat_perm. by apply fmap_Permutation.
Qed.

Lemma completed_results (f : DataFrame → ProcessingResult)
    (batches : list DataFrame) (pool : schedule) :
  fair_schedule (length batches) pool →
  (λ i, f (default [] (batches !! i))) <$> completion_order pool
  ≡ₚ f <$> batches.
Proof. intros [_ Hdone]. rewrite Hdone. by rewrite lookup_total_fmap_seq. Qed.

(** X12: with a store whose failures depend on the batch and not on what
    the store holds, the parallel run has, for every number of workers and
    every schedule in which each batch runs once and each future is handed
    back once, the processed count, the failed count and the success flag
    of the sequential run, and the same messages in some order. *)
Theorem parallel_same_counts_any_schedule (self : DataProcessor Engine)
    (fs : filesystem) (db : DB) (file_path : string)
    (batches : list DataFrame) (pool : schedule) :
  fails_by_batch execute →
  read_csv_batches self fs file_path = Ok batches →
  fair_schedule (length batches) pool →
  ∃ r_seq r_par : ProcessingResult,
    (process_file_sequential execute self fs db file_path).2 = Ok r_seq ∧
    (process_file_parallel execute self fs db file_path pool).2 = Ok r_par ∧
    counts r_par = counts r_seq ∧
    errors r_par ≡ₚ errors r_seq.
Proof.
  intros Hind Hread Hfair.
  set (f := λ df, returned (process_batch execute self db df).2).
  pose proof (process_batch_function self db Hind) as Hf. fold f in Hf.
  eexists _, _.
  split; [by apply (sequential_by_batch self fs db file_path batches f)|].
  split; [by apply (parallel_by_batch self fs db file_path batches f)|].
  apply run_result_perm. by apply completed_results.
Qed.

Variable log : DB → list pydict.

Lemma process_batch_logged (self : DataProcessor Engine) (db : DB)
    (df : DataFrame) :
  commit_log execute log →
  Z.of_nat (length (log (process_batch execute self db df).1))
  = Z.of_nat (length (log db))
    + records_processed (returned (process_batch execute self db df).2).
Proof.
  intros Hlog.
  pose proof (process_batch_outcome execute self db df) as H. cbv zeta in H.
  rewrite H, process_batch_database.
  destruct (omap row_record df) as [|r valid] eqn:Ev; [simpl; lia|].
  rewrite Hlog.
  destruct (execute (engine self) db (r :: valid)).2; simpl;
    rewrite ?length_app; simpl; lia.
Qed.

Lemma run_in_order_logged (self : DataProcessor Engine)
    (batches : list DataFrame) (db : DB) :
  commit_log execute log →
  Z.of_nat (length (log (run_in_order execute self db batches).1))
  = Z.of_nat (length (log db))
    + Zsum (records_processed
              <$> (returned <$> (run_in_order execute self db batches).2)).
Proof.
  intros Hlog. revert db.
  induction batches as [|batch rest IH]; intros db.
  - unfold Zsum. simpl. lia.
  - cbn [run_in_order].
    pose proof (process_batch_logged self db batch Hlog) as Hb.
    destruct (process_batch execute self db batch) as [db1 outcome].
    specialize (IH db1).
    destruct (run_in_order execute self db1 rest) as [db2 outcomes].
    cbn [fst snd] in *. rewrite !fmap_cons, Zsum_cons. lia.
Qed.

(** Futures of batches that are not run are left as they were. *)
Lemma run_workers_others (self : DataProcessor Engine)
    (batches : list DataFrame) (order : list nat) (db : DB) (done : futures)
    (j : nat) :
  j ∉ order →
  (run_workers execute self batches db order done).2 !! j = done !! j.
Proof.
  revert db done.
  induction order as [|i order IH]; intros db done Hj; [reflexivity|].
  apply not_elem_of_cons in Hj as [Hne Hj]. simpl.
  destruct (batches !! i) as [batch|]; [|by apply IH].
  destruct (process_batch execute self db batch) as [db1 outcome].
  rewrite IH by exact Hj. by rewrite lookup_insert_ne.
Qed.

Lemma run_workers_logged (self : DataProcessor Engine)
    (batches : list DataFrame) (order : list nat) (db : DB) (done : futures) :
  commit_log execute log →
  NoDup order → (∀ i, i ∈ order → done !! i = None) →
  Z.of_nat (length (log (run_workers execute self batches db order done).1))
  = Z.of_nat (length (log db))
    + Zsum ((λ i, records_processed
                    (from_option returned (mkResult false 0 0 [])
                       ((run_workers execute self batches db order done).2
                          !! i))) <$> order).
Proof.
  intros Hlog. revert db done.
  induction order as [|i order IH]; intros db done Hnd Hnone.
  - unfold Zsum. simpl. lia.
  - apply NoDup_cons in Hnd as [Hi Hnd].
    rewrite fmap_cons, Zsum_cons. cbn [run_workers].
    destruct (batches !! i) as [batch|].
    + pose proof (process_batch_logged self db batch Hlog) as Hb.
      destruct (process_batch execute self db batch) as [db1 outcome].
      cbn [fst snd] in Hb.
      rewrite (IH db1 (<[i := outcome]> done)); [|exact Hnd|].
      * rewrite run_workers_others, lookup_insert_eq by exact Hi. simpl. lia.
      * intros j Hj. rewrite lookup_insert_ne by (by intros ->).
        apply Hnone. apply elem_of_cons. by right.
    + rewrite (IH db done); [|exact Hnd|].
      * rewrite run_workers_others by exact Hi.
        rewrite (Hnone i) by (apply elem_of_cons; by left). simpl. lia.
      * intros j Hj. apply Hnone. apply elem_of_cons. by right.
Qed.

Lemma process_file_sequential_logged (self : DataProcessor Engine)
    (fs : filesystem) (db : DB) (file_path : string) :
  commit_log execute log →
  match process_file_sequential execute self fs db file_path with
  | (db', Ok r) =>
      records_processed r
      = Z.of_nat (length (log db')) - Z.of_nat (length (log db))
  | (db', Raise _) => log db' = log db
  end.
Proof.
  intros Hlog.
  destruct (read_csv_batches self fs file_path) as [batches|e] eqn:Hread.
  - rewrite (process_file_sequential_result execute self fs db file_path
               batches Hread).
    destruct (foldl_add_result
                (returned <$> (run_in_order execute self db batches).2)
                (mkTotals 0 0 [])) as (H1 & _).
    cbn [run_result records_processed]. rewrite H1.
    rewrite (run_in_order_logged self batches db Hlog). simpl. lia.
  - unfold process_file_sequential. by rewrite Hread.
Qed.

Lemma process_file_parallel_logged (self : DataProcessor Engine)
    (fs : filesystem) (db : DB) (file_path : string) (pool : schedule) :
  commit_log execute log →
  fair_schedule (num_batches self fs file_path) pool →
  match process_file_parallel execute self fs db file_path pool with
  | (db', Ok r) =>
      records_processed r
      = Z.of_nat (length (log db')) - Z.of_nat (length (log db))
  | (db', Raise _) => log db' = log db
  end.
Proof.
  intros Hlog [Hrun Hdone]. unfold num_batches in *.
  destruct (read_csv_batches self fs file_path) as [batches|e] eqn:Hread.
  - rewrite (process_file_parallel_result execute self fs db file_path
               batches pool Hread).
    destruct (foldl_collect_counts
                (run_workers execute self batches db (run_order pool) ∅).2
                (completion_order pool) (mkTotals 0 0 [])) as (H1 & _).
    cbn [run_result records_processed]. rewrite H1.
    rewrite (run_workers_logged self batches (run_order pool) db ∅ Hlog).
    + simpl. rewrite (Zsum_perm _ _ (fmap_Permutation _ _ _ Hrun)).
      rewrite (Zsum_perm _ _ (fmap_Permutation _ _ _ Hdone)). lia.
    + rewrite Hrun. apply NoDup_seq.
    + intros i _. apply lookup_empty.
  - unfold process_file_parallel. by rewrite Hread.
Qed.

(** X13: the processed count of a run is the number of records in the
    transactions that the store committed during the run, a record that is
    upserted twice counting twice: in sequential mode and, for every
    schedule in which each batch runs once and each future is handed back
    once, in parallel mode. A batch whose transaction fails adds nothing to
    either. A run that raises commits nothing. *)
Theorem processed_counts_committed_records (self : DataProcessor Engine)
    (fs : filesystem) (db : DB) (file_path : string) (pool : schedule) :
  commit_log execute log →
  fair_schedule (num_batches self fs file_path) pool →
  match process_file_sequential execute self fs db file_path with
  | (db', Ok r) =>
      records_processed r
      = Z.of_nat (length (log db')) - Z.of_nat (length (log db))
  | (db', Raise _) => log db' = log db
  end ∧
  match process_file_parallel execute self fs db file_path pool with
  | (db', Ok r) =>
      records_processed r
      = Z.of_nat (length (log db')) - Z.of_nat (length (log db))
  | (db', Raise _) => log db' = log db
  end.
Proof.
  intros Hlog Hfair. split.
  - by apply process_file_sequential_logged.
  - by apply process_file_parallel_logged.
Qed.

End RunAndStore.

(** ** What a run stores *)

Section RunContents.

Context {Engine DB : Type}.
Variable execute : Engine → DB → list pydict → DB * option exc.
Variable log : DB → list pydict.

Lemma process_batch_log (self : DataProcessor Engine) (db : DB)
    (df : DataFrame) :
  reliable execute → commit_log execute log →
  log (process_batch execute self db df).1 = log db ++ omap row_record df.
Proof.
  intros Hrel Hlog. rewrite process_batch_database.
  destruct (omap row_record df) as [|r valid]; [by rewrite app_nil_r|].
  by rewrite Hlog, Hrel.
Qed.

Lemma run_in_order_log (self : DataProcessor Engine)
    (batches : list DataFrame) (db : DB) :
  reliable execute → commit_log execute log →
  log (run_in_order execute self db batches).1
  = log db ++ omap row_record (concat batches).
Proof.
  intros Hrel Hlog. revert db.
  induction batches as [|batch rest IH]; intros db.
  - simpl. by rewrite app_nil_r.
  - cbn [run_in_order].
    pose proof (process_batch_log self db batch Hrel Hlog) as Hb.
    destruct (process_batch execute self db batch) as [db1 outcome].
    specialize (IH db1).
    destruct (run_in_order execute self db1 rest) as [db2 outcomes].
    cbn [fst snd] in *.
    change (concat (batch :: rest)) with (batch ++ concat rest).
    by rewrite IH, Hb, omap_app, app_assoc.
Qed.

Lemma run_workers_log (self : DataProcessor Engine)
    (batches : list DataFrame) (order : list nat) (db : DB) (done : futures) :
  reliable execute → commit_log execute log →
  log (run_workers execute self batches db order done).1
  = log db
    ++ concat ((λ i, omap row_record (default [] (batches !! i))) <$> order).
Proof.
  intros Hrel Hlog. revert db done.
  induction order as [|i order IH]; intros db done.
  - simpl. by rewrite app_nil_r.
  - cbn [run_workers]. rewrite fmap_cons.
    destruct (batches !! i) as [batch|].
    + pose proof (process_batch_log self db batch Hrel Hlog) as Hb.
      destruct (process_batch execute self db batch) as [db1 outcome].
      cbn [fst] in Hb. rewrite IH, Hb. simpl. by rewrite app_assoc.
    + rewrite IH. done.
Qed.

Lemma concat_omap_batches (batches : list DataFrame) :
  concat ((λ i, omap row_record (default [] (batches !! i)))
            <$> seq 0 (length batches))
  = omap row_record (concat batches).
Proof.
  rewrite (lookup_total_fmap_seq (λ df : DataFrame, omap row_record df)
             [] batches).
  apply concat_omap.
Qed.

(** X14: with a store that never fails, the transactions that a run
    commits carry the processed records of the rows that [validate_record]
    accepts among the rows that the reader yielded, each of them once: in
    the order of the rows in sequential mode, and in some order, for every
    schedule in which each batch runs once, in parallel mode. *)
Theorem reliable_run_commits_valid_rows (self : DataProcessor Engine)
    (fs : filesystem) (db : DB) (file_path : string)
    (batches : list DataFrame) (pool : schedule) :
  reliable execute → commit_log execute log →
  read_csv_batches self fs file_path = Ok batches →
  fair_schedule (length batches) pool →
  log (process_file_sequential execute self fs db file_path).1
    = log db ++ omap row_record (concat batches) ∧
  log (process_file_parallel execute self fs db file_path pool).1
    ≡ₚ log db ++ omap row_record (concat batches).
Proof.
  intros Hrel Hlog Hread [Hrun _].
  split.
  - rewrite (process_file_sequential_result execute self fs db file_path
               batches Hread).
    cbn [fst]. by rewrite run_in_order_log.
  - rewrite (process_file_parallel_result execute self fs db file_path
               batches pool Hread).
    cbn [fst]. rewrite run_workers_log by done.
    apply Permutation_app_head.
    rewrite <- concat_omap_batches.
    apply concat_perm. by apply fmap_Permutation.
Qed.

End RunContents.

(** ** The reader and the runs *)

(** No chunk is empty and none has more than [S n] rows. *)
Lemma chunks_of_sizes {A : Type} (n : nat) (l : list A) :
  Forall (λ chunk, (0 < length chunk ≤ S n)%nat) (chunks_of n l).
Proof.
  funelim (chunks_of n l); simp chunks_of; [constructor|].
  constructor; [|done]. simpl. rewrite length_take. lia.
Qed.

(** Every chunk but the last one has [S n] rows. *)
Lemma chunks_of_but_last {A : Type} (n : nat) (l : list A) (i : nat)
    (chunk : list A) :
  chunks_of n l !! i = Some chunk →
  (S i < length (chunks_of n l))%nat →
  length chunk = S n.
Proof.
  revert i. funelim (chunks_of n l); simp chunks_of; intros i; [done|].
  destruct i as [|i]; simpl.
  - intros [= <-] Hlen. simpl. rewrite length_take.
    destruct (drop n l) as [|y k] eqn:Ed.
    + simp chunks_of in Hlen. simpl in Hlen. lia.
    + apply (f_equal length) in Ed. rewrite length_drop in Ed. simpl in Ed.
      lia.
  - intros Hi Hlen. apply (H chunk i); [done|lia].
Qed.

(** The number of chunks is the number of rows over [S n], rounded up. *)
Lemma length_chunks_of {A : Type} (n : nat) (l : list A) :
  length (chunks_of n l) = ((length l + n) / S n)%nat.
Proof.
  funelim (chunks_of n l); simp chunks_of.
  - cbn [length]. rewrite Nat.add_0_l, Nat.div_small by lia. done.
  - simpl length. rewrite H, length_drop.
    replace (S (length l) + n)%nat with (1 * S n + length l)%nat by lia.
    rewrite Nat.div_add_l by lia.
    destruct (decide (n ≤ length l)%nat) as [Hle|Hgt].
    + by replace (length l - n + n)%nat with (length l) by lia.
    + replace (length l - n + n)%nat with n by lia.
      rewrite !Nat.div_small by lia. done.
Qed.

Lemma whole_frame_labels (rows : list pydict) :
  (whole_frame rows).*1 = Z.of_nat <$> seq 0 (length rows) ∧
  (whole_frame rows).*2 = rows.
Proof.
  unfold whole_frame. split; apply list_eq; intros i;
    rewrite !list_lookup_fmap, list_lookup_imap.
  - destruct (rows !! i) as [row|] eqn:E; simpl.
    + by rewrite lookup_seq_lt by (by apply lookup_lt_Some in E).
    + by rewrite lookup_seq_ge by (by apply lookup_ge_None in E).
  - by destruct (rows !! i).
Qed.

Lemma read_chunks_nonempty (size : nat) (rows : list pydict) :
  rows ≠ [] →
  read_chunks size rows = chunks_of (Nat.pred size) (whole_frame rows).
Proof.
  intros Hne. unfold read_chunks. fold (whole_frame rows).
  destruct (whole_frame rows) as [|row frame] eqn:E; [|done].
  apply (f_equal length) in E. unfold whole_frame in E.
  rewrite length_imap in E. by destruct rows.
Qed.

(** X15: with a positive batch size, the reader splits a file that has
    rows into batches of which none is empty and none has more than
    [batch_size] rows, all but the last one having exactly [batch_size]
    rows; their number is the number of rows over [batch_size], rounded up;
    put end to end they are the rows of the file in order, labelled by their
    number in the file. *)
Theorem read_csv_batches_chunk_sizes {Engine : Type}
    (self : DataProcessor Engine) (fs : filesystem) (file_path : string)
    (rows : list pydict) :
  fs !! file_path = Some (CsvRows rows) →
  0 < batch_size self →
  rows ≠ [] →
  ∃ batches : list DataFrame,
    read_csv_batches self fs file_path = Ok batches ∧
    Forall (λ batch, 0 < Z.of_nat (length batch) ≤ batch_size self) batches ∧
    (∀ (i : nat) (batch : DataFrame),
       batches !! i = Some batch → (S i < length batches)%nat →
       Z.of_nat (length batch) = batch_size self) ∧
    Z.of_nat (length batches)
      = (Z.of_nat (length rows) + batch_size self - 1) / batch_size self ∧
    (concat batches).*1 = Z.of_nat <$> seq 0 (length rows) ∧
    (concat batches).*2 = rows.
Proof.
  intros Hfile Hsize Hne.
  exists (read_chunks (Z.to_nat (batch_size self)) rows).
  split; [by apply read_csv_batches_rows|].
  rewrite read_chunks_concat. fold (whole_frame rows).
  rewrite (read_chunks_nonempty _ rows Hne).
  set (n := Nat.pred (Z.to_nat (batch_size self))).
  assert (batch_size self = Z.of_nat (S n)) as Hn by (unfold n; lia).
  split; [|split; [|split]].
  - eapply Forall_impl; [apply chunks_of_sizes|]. intros batch Hb.
    simpl in Hb. lia.
  - intros i batch Hb Hi. rewrite (chunks_of_but_last n _ i batch Hb Hi). lia.
  - rewrite length_chunks_of. unfold whole_frame. rewrite length_imap, Hn.
    rewrite Nat2Z.inj_div. f_equal; lia.
  - apply whole_frame_labels.
Qed.

Section ReaderAndRuns.

Context {Engine DB : Type}.
Variable execute : Engine → DB → list pydict → DB * option exc.

(** X16: when the input cannot be read, both runs raise the reader's
    [FileProcessingError], before any batch is processed: the database is
    left as it was. The message is [File not found: <path>] for a path that
    does not exist and [Failed to read CSV: <e>] when pandas raises [e]. *)
Theorem reader_error_escapes (self : DataProcessor Engine) (fs : filesystem)
    (db : DB) (file_path : string) (pool : schedule) :
  let escapes (msg : string) :=
    process_file_sequential execute self fs db file_path
      = (db, Raise (Exc FileProcessingError msg)) ∧
    process_file_parallel execute self fs db file_path pool
      = (db, Raise (Exc FileProcessingError msg)) in
  (fs !! file_path = None → escapes ("File not found: " +:+ file_path)) ∧
  (∀ e : exc,
     fs !! file_path = Some (CsvError e) → 0 < batch_size self →
     escapes ("Failed to read CSV: " +:+ exc_msg e)) ∧
  (∀ e : exc,
     read_csv_batches self fs file_path = Raise e →
     process_file_sequential execute self fs db file_path = (db, Raise e) ∧
     process_file_parallel execute self fs db file_path pool = (db, Raise e) ∧
     exc_cls e = FileProcessingError).
Proof.
  cbv zeta. split; [|split].
  - intros Hf. unfold process_file_sequential, process_file_parallel,
      read_csv_batches. by rewrite Hf.
  - intros e Hf Hsize. unfold process_file_sequential, process_file_parallel,
      read_csv_batches, pd_read_csv. rewrite Hf.
    by destruct (Z.leb_spec (batch_size self) 0); [lia|].
  - intros e Hread. unfold process_file_sequential, process_file_parallel.
    rewrite Hread. repeat split.
    by apply (read_csv_batches_raises self fs file_path).
Qed.

Lemma run_workers_empty_batch (self : DataProcessor Engine) (order : list nat)
    (db : DB) (done : futures) :
  (∀ i outcome, done !! i = Some outcome → outcome = Ok (mkResult true 0 0 [])) →
  (run_workers execute self [[]] db order done).1 = db ∧
  ∀ i outcome,
    (run_workers execute self [[]] db order done).2 !! i = Some outcome →
    outcome = Ok (mkResult true 0 0 []).
Proof.
  revert done. induction order as [|j order IH]; intros done Hdone.
  - split; [reflexivity|exact Hdone].
  - cbn [run_workers]. destruct ([[]] !! j) as [batch|] eqn:Ej.
    + assert (batch = []) as ->.
      { destruct j as [|j]; [by injection Ej as <-|by destruct j]. }
      change (process_batch execute self db []) with
        (db, Ok (mkResult true 0 0 []) : result ProcessingResult).
      apply IH. intros i outcome.
      destruct (decide (j = i)) as [<-|Hne].
      * rewrite lookup_insert_eq. by intros [= <-].
      * rewrite lookup_insert_ne by exact Hne. apply Hdone.
    + by apply IH.
Qed.

Lemma foldl_collect_nothing (done : futures) (l : list nat) (t : totals) :
  (∀ i outcome, done !! i = Some outcome → outcome = Ok (mkResult true 0 0 [])) →
  foldl (collect done) t l = t.
Proof.
  intros Hdone. induction l as [|i l IH]; [reflexivity|].
  cbn [foldl]. rewrite <- IH at 2. f_equal. unfold collect.
  destruct (done !! i) as [outcome|] eqn:E; [|reflexivity].
  rewrite (Hdone i outcome E). unfold add_result. destruct t. simpl.
  by rewrite !Z.add_0_r, app_nil_r.
Qed.

(** X17: on a file that has a header and no row, both runs, whatever the
    schedule of the pool, return the successful result with no record and
    no message, and leave the database as it was. *)
Theorem empty_file_run (self : DataProcessor Engine) (fs : filesystem)
    (db : DB) (file_path : string) (pool : schedule) :
  fs !! file_path = Some (CsvRows []) →
  0 < batch_size self →
  process_file_sequential execute self fs db file_path
    = (db, Ok (mkResult true 0 0 [])) ∧
  process_file_parallel execute self fs db file_path pool
    = (db, Ok (mkResult true 0 0 [])).
Proof.
  intros Hfile Hsize.
  pose proof (read_csv_batches_rows self fs file_path [] Hfile Hsize) as Hread.
  change (read_chunks (Z.to_nat (batch_size self)) []) with [[] : DataFrame]
    in Hread.
  split.
  - unfold process_file_sequential. rewrite Hread. reflexivity.
  - rewrite (process_file_parallel_result execute self fs db file_path [[]]
               pool Hread).
    destruct (run_workers_empty_batch self (run_order pool) db ∅) as [-> H].
    { intros i outcome. by rewrite lookup_empty. }
    by rewrite foldl_collect_nothing.
Qed.

End ReaderAndRuns.

(** ** The constructor and the reader *)

Section ConstructorAndReader.

Context {Engine : Type}.
Variable create_engine : string → result Engine.

Lemma init_returns (url : string) (size workers : option Z)
    (p : DataProcessor Engine) :
  (__init__ create_engine url size workers).2 = Ok p →
  url ≠ EmptyString ∧ 0 < default 1000 size ∧ 0 < default 4 workers ∧
  ∃ e, create_engine url = Ok e ∧
       p = mkDataProcessor url (default 1000 size) (default 4 workers) e.
Proof.
  destruct (decide (url = EmptyString ∨ default 1000 size ≤ 0
                    ∨ default 4 workers ≤ 0)) as [Hbad|Hgood].
  - by destruct (init_rejected create_engine url size workers Hbad)
      as [msg ->].
  - rewrite (init_accepted create_engine url size workers Hgood).
    destruct (create_engine url) as [e|err]; simpl; [|done].
    intros [= <-]. split; [tauto|]. split; [lia|]. split; [lia|]. eauto.
Qed.

(** X18: a processor that the constructor returns has the URL it was
    given, which is not empty, a positive batch size and a positive worker
    count, and the engine that [create_engine] gave for the URL; its reader
    returns the rows of every file that exists and can be parsed, and
    raises [FileProcessingError] on the others. *)
Theorem constructed_processor_reads (url : string) (size workers : option Z)
    (p : DataProcessor Engine) :
  (__init__ create_engine url size workers).2 = Ok p →
  db_url p = url ∧ url ≠ EmptyString ∧
  0 < batch_size p ∧ 0 < max_workers p ∧
  create_engine url = Ok (engine p) ∧
  ∀ (fs : filesystem) (file_path : string),
    match fs !! file_path with
    | Some (CsvRows rows) =>
        ∃ batches, read_csv_batches p fs file_path = Ok batches ∧
                   (concat batches).*2 = rows
    | _ => raises (read_csv_batches p fs file_path) FileProcessingError
    end.
Proof.
  intros (Hne & Hs & Hw & e & He & ->)%init_returns. simpl.
  split; [done|]. split; [done|]. split; [done|]. split; [done|].
  split; [done|]. intros fs file_path.
  destruct (fs !! file_path) as [[rows|err]|] eqn:Hf.
  - eexists. split; [by apply read_csv_batches_rows|].
    rewrite read_chunks_concat. fold (whole_frame rows).
    apply whole_frame_labels.
  - unfold read_csv_batches, pd_read_csv. rewrite Hf. simpl.
    by destruct (Z.leb_spec (default 1000 size) 0).
  - unfold read_csv_batches. by rewrite Hf.
Qed.

End ConstructorAndReader.

(** ** [main], from the command line to the exit code *)

Lemma omap_nil_iff {A B : Type} (f : A → option B) (l : list A) :
  omap f l = [] ↔ Forall (λ x, f x = None) l.
Proof.
  induction l as [|x l IH]; [by split; [constructor|]|].
  rewrite omap_cons_app, Forall_cons. destruct (f x); simpl.
  - split; [done|]. by intros [[=] _].
  - rewrite IH. tauto.
Qed.

Lemma row_message_None (row : Z * pydict) :
  row_message row = None ↔ validate_record row.2 = Ok true.
Proof.
  unfold row_message. split.
  - by destruct (validate_record row.2) as [[|]|e].
  - intros E. rewrite E. by destruct (validated_is_processed _ E) as [p ->].
Qed.

(** No message comes of a file exactly when every row of it is valid. *)
Lemma whole_frame_no_message (rows : list pydict) :
  omap row_message (whole_frame rows) = [] ↔
  Forall (λ row, validate_record row = Ok true) rows.
Proof.
  rewrite omap_nil_iff.
  rewrite <- (proj2 (whole_frame_labels rows)) at 2.
  rewrite Forall_fmap. apply Forall_proper; [|done]. intros row. simpl.
  apply row_message_None.
Qed.

Section MainAndStore.

Context {Engine DB : Type}.
Variable create_engine : string → result Engine.
Variable execute : Engine → DB → list pydict → DB * option exc.

Lemma main_run_engine (w : World DB) (input_file db_url : string)
    (e : Engine) :
  db_url ≠ EmptyString → create_engine db_url = Ok e →
  main_run create_engine execute w input_file db_url
  = process_file_parallel execute (mkDataProcessor db_url 1000 4 e) (files w)
      (database w) input_file (thread_pool w).
Proof.
  intros Hne He. unfold main_run, __init__.
  destruct db_url as [|c s]; [done|]. simpl. by rewrite He.
Qed.

Lemma main_run_no_engine (w : World DB) (input_file db_url : string)
    (e : exc) :
  db_url ≠ EmptyString → create_engine db_url = Raise e →
  main_run create_engine execute w input_file db_url = (database w, Raise e).
Proof.
  intros Hne He. unfold main_run, __init__.
  destruct db_url as [|c s]; [done|]. simpl. by rewrite He.
Qed.

Lemma main_unfold (w : World DB) (input_file db_url : string) :
  argv w !! 1%nat = Some input_file →
  is_Some (files w !! input_file) →
  environ w !! "DATABASE_URL" = Some db_url → db_url ≠ EmptyString →
  main create_engine execute w =
    match main_run create_engine execute w input_file db_url with
    | (db', Ok r) => (db', if success r then 0 else 1)
    | (db', Raise _) => (db', 1)
    end.
Proof.
  intros Ha [file Hf] He Hne. unfold main.
  destruct (argv w) as [|prog [|input_file' rest]]; [done..|].
  injection Ha as ->. rewrite Hf, He. simpl.
  by destruct db_url as [|c s].
Qed.

Lemma main_early_exit (w : World DB) :
  (length (argv w) < 2)%nat ∨
  (∃ input_file, argv w !! 1%nat = Some input_file ∧
     (files w !! input_file = None ∨
      environ w !! "DATABASE_URL" = None ∨
      environ w !! "DATABASE_URL" = Some EmptyString)) →
  main create_engine execute w = (database w, 1).
Proof.
  unfold main. destruct (argv w) as [|prog [|input_file rest]]; [done..|].
  simpl. intros [H|(f & [= <-] & [Hf|H])]; [lia| |].
  - by rewrite Hf.
  - destruct (files w !! input_file); simpl; [|done].
    by destruct H as [-> | ->].
Qed.

(** X19: whenever the setup fails, [main] returns 1 and leaves the
    database as it was: when the argument is missing, when the input file
    does not exist, when [DATABASE_URL] is unset or empty, when
    [create_engine] raises on the URL, and when the file cannot be
    parsed. *)
Theorem main_setup_failure (w : World DB) :
  (length (argv w) < 2)%nat ∨
  (∃ input_file : string,
     argv w !! 1%nat = Some input_file ∧
     (files w !! input_file = None ∨
      environ w !! "DATABASE_URL" = None ∨
      environ w !! "DATABASE_URL" = Some EmptyString ∨
      (∃ (db_url : string) (e : exc),
         environ w !! "DATABASE_URL" = Some db_url ∧
         create_engine db_url = Raise e) ∨
      (∃ e : exc, files w !! input_file = Some (CsvError e)))) →
  main create_engine execute w = (database w, 1).
Proof.
  intros [H|(input_file & Ha & H)]; [apply main_early_exit; by left|].
  destruct (files w !! input_file) as [file|] eqn:Hf;
    [|apply main_early_exit; right; eauto].
  destruct (environ w !! "DATABASE_URL") as [db_url|] eqn:He;
    [|apply main_early_exit; right; eauto].
  destruct (decide (db_url = EmptyString)) as [->|Hne];
    [apply main_early_exit; right; eauto|].
  rewrite (main_unfold w input_file db_url) by eauto.
  destruct (create_engine db_url) as [e|err] eqn:Hc.
  - rewrite (main_run_engine w input_file db_url e) by done.
    destruct H as [H|[H|[H|[(url & err & [= <-] & H)|[err H]]]]];
      try congruence.
    injection H as ->.
    unfold process_file_parallel, read_csv_batches, pd_read_csv.
    by rewrite Hf.
  - by rewrite (main_run_no_engine w input_file db_url err).
Qed.

(** X20: with a store that never fails, a file that is read, a URL that
    gives an engine, and a schedule of the pool in which each batch runs
    once and each future is handed back once, [main] returns 0 exactly when
    every row of the file is accepted by [validate_record], and 1
    otherwise. *)
Theorem main_exit_zero_iff_all_valid (w : World DB)
    (input_file db_url : string) (e : Engine) (rows : list pydict) :
  reliable execute →
  argv w !! 1%nat = Some input_file →
  files w !! input_file = Some (CsvRows rows) →
  environ w !! "DATABASE_URL" = Some db_url → db_url ≠ EmptyString →
  create_engine db_url = Ok e →
  fair_schedule (length (read_chunks (Z.to_nat 1000) rows)) (thread_pool w) →
  ((main create_engine execute w).2 = 0 ↔
   Forall (λ row, validate_record row = Ok true) rows) ∧
  ((main create_engine execute w).2 = 1 ↔
   ¬ Forall (λ row, validate_record row = Ok true) rows).
Proof.
  intros Hrel Ha Hf He Hne Hc Hfair.
  rewrite (main_unfold w input_file db_url) by eauto.
  rewrite (main_run_engine w input_file db_url e) by done.
  set (self := mkDataProcessor db_url 1000 4 e).
  assert (read_csv_batches self (files w) input_file
          = Ok (read_chunks (Z.to_nat 1000) rows)) as Hread.
  { by apply (read_csv_batches_rows self (files w) input_file rows). }
  set (f := λ df : DataFrame, batch_result (process_rows df)).
  assert (∀ db df, ∃ r, (process_batch execute self db df).2 = Ok r ∧ r = f df)
    as Hbatch.
  { intros db df. eexists. split; [by apply process_batch_reliable|done]. }
  pose proof (parallel_by_batch execute self (files w) (database w) input_file
                _ f (thread_pool w) Hread Hbatch Hfair) as Hpar.
  destruct (run_result_perm _ _ (completed_results f _ (thread_pool w) Hfair))
    as [Hcounts _].
  unfold f in Hcounts at 2.
  rewrite add_batch_results, read_chunks_concat in Hcounts.
  fold (whole_frame rows) in Hcounts.
  destruct (process_file_parallel execute self (files w) (database w)
              input_file (thread_pool w)) as [db' outcome].
  cbn [snd] in Hpar. subst outcome. cbn [snd].
  set (r_par := run_result _) in *. clearbody r_par.
  assert (success r_par = bool_decide (omap row_message (whole_frame rows) = []))
    as ->.
  { unfold counts in Hcounts. injection Hcounts as _ _ ->.
    rewrite process_rows_eq. unfold batch_result. simpl.
    apply length_eqb_nil. }
  rewrite <- whole_frame_no_message.
  destruct (decide (omap row_message (whole_frame rows) = [])) as [Hnil|Hnil].
  - rewrite bool_decide_eq_true_2 by done. split; [done|]. split; [done|tauto].
  - rewrite bool_decide_eq_false_2 by done. split; [|done]. split; [done|tauto].
Qed.

End MainAndStore.

(** ** The further properties on the sample data *)

Lemma process_record_idempotent_witness :
  process_record bob_processed = Ok bob_processed.
Proof.
  apply (process_record_idempotent bob bob_processed).
  - intros name Hname. vm_compute in Hname. injection Hname as <-.
    reflexivity.
  - vm_compute. reflexivity.
Defined.

Lemma processed_record_validates_witness :
  validate_record bob_processed = Ok true.
Proof.
  apply (processed_record_validates bob bob_processed).
  - vm_compute. reflexivity.
  - vm_compute. reflexivity.
Defined.

Lemma sequential_run_one_loop_witness :
  ∃ r : ProcessingResult,
    (process_file_sequential sample_execute sample_processor sample_fs []
       "in.csv").2 = Ok r ∧
    errors r
    = omap row_message [(0, bob); (1, abc_record); (2, x_record)].
Proof.
  destruct (sequential_run_one_loop sample_execute sample_processor sample_fs
              [] "in.csv" [[(0, bob); (1, abc_record)]; [(2, x_record)]])
    as (r & Hrun & _ & _ & _ & Herrors).
  - intros e db batch. reflexivity.
  - vm_compute. reflexivity.
  - exists r. split; [exact Hrun | exact Herrors].
Defined.

Lemma parallel_same_counts_any_schedule_witness :
  ∃ r_seq r_par : ProcessingResult,
    (process_file_sequential sample_execute sample_processor sample_fs []
       "in.csv").2 = Ok r_seq ∧
    (process_file_parallel sample_execute sample_processor sample_fs []
       "in.csv" swapped_pool).2 = Ok r_par ∧
    counts r_par = counts r_seq.
Proof.
  destruct (parallel_same_counts_any_schedule sample_execute sample_processor
              sample_fs [] "in.csv"
              (read_chunks 2 [bob; abc_record; x_record]) swapped_pool)
    as (r_seq & r_par & Hseq & Hpar & Hcounts & _).
  - intros e db1 db2 batch. reflexivity.
  - reflexivity.
  - split; apply perm_swap.
  - exists r_seq, r_par. split; [exact Hseq|]. split; [exact Hpar|].
    exact Hcounts.
Defined.

Lemma upsert_execute_log : commit_log upsert_execute history.
Proof. intros e db batch. reflexivity. Qed.

(** The three rows of the sample file have the same [id]: two of them are
    valid and are counted as processed, in two transactions, and the table
    holds one row at the end. *)
Lemma processed_counts_committed_records_witness :
  ∃ (db' : table_store) (r : ProcessingResult),
    process_file_parallel upsert_execute sample_processor sample_fs
      (mkStore ∅ []) "in.csv" swapped_pool = (db', Ok r) ∧
    records_processed r = Z.of_nat (length (history db')) - 0 ∧
    length (history db') = 2%nat ∧ size (table db') = 1%nat.
Proof.
  destruct (processed_counts_committed_records upsert_execute history
              sample_processor sample_fs (mkStore ∅ []) "in.csv" swapped_pool)
    as [_ H].
  - apply upsert_execute_log.
  - assert (num_batches sample_processor sample_fs "in.csv" = 2%nat) as ->
      by (vm_compute; reflexivity).
    split; apply perm_swap.
  - destruct (process_file_parallel upsert_execute sample_processor sample_fs
                (mkStore ∅ []) "in.csv" swapped_pool) as [db' [r|e]] eqn:E.
    + exists db', r. split; [reflexivity|]. split; [exact H|].
      vm_compute in E. injection E as <- _. split; vm_compute; reflexivity.
    + vm_compute in E. discriminate E.
Defined.

Lemma read_csv_batches_chunk_sizes_witness :
  ∃ batches : list DataFrame,
    read_csv_batches sample_processor sample_fs "in.csv" = Ok batches ∧
    Z.of_nat (length batches) = (3 + 2 - 1) / 2.
Proof.
  destruct (read_csv_batches_chunk_sizes sample_processor sample_fs "in.csv"
              [bob; abc_record; x_record])
    as (batches & Hread & _ & _ & Hlen & _).
  - reflexivity.
  - reflexivity.
  - discriminate.
  - exists batches. split; [exact Hread | exact Hlen].
Defined.

Lemma empty_file_run_witness :
  process_file_parallel down_execute sample_processor empty_fs [] "in.csv"
    swapped_pool
  = ([], Ok (mkResult true 0 0 [])).
Proof.
  destruct (empty_file_run down_execute sample_processor empty_fs [] "in.csv"
              swapped_pool) as [_ H].
  - reflexivity.
  - reflexivity.
  - exact H.
Defined.

Lemma main_setup_failure_witness :
  main sample_create_engine sample_execute bad_url_world = ([], 1).
Proof.
  apply (main_setup_failure sample_create_engine sample_execute bad_url_world).
  right. exists "in.csv". split; [reflexivity|].
  right. right. right. left.
  exists "abc", (Exc LibraryError
                   "Could not parse SQLAlchemy URL from given URL string").
  split; reflexivity.
Defined.

Lemma main_exit_zero_iff_all_valid_witness :
  (main sample_create_engine sample_execute good_world).2 = 0 ↔
  Forall (λ row, validate_record row = Ok true) [bob; x_record].
Proof.
  apply (main_exit_zero_iff_all_valid sample_create_engine sample_execute
           good_world "in.csv" sample_url tt [bob; x_record]).
  - intros e db batch. reflexivity.
  - reflexivity.
  - reflexivity.
  - reflexivity.
  - discriminate.
  - reflexivity.
  - split; reflexivity.
Defined.

Lemma validate_record_by_type_witness :
  validate_record x_record
  = Ok (bool_decide (is_Some (float_of_string "3.14"))).
Proof.
  apply (validate_record_by_type x_record (VStr "3.14")).
  - vm_compute. eauto.
  - vm_compute. eauto.
  - reflexivity.
Defined.

Lemma constructed_processor_reads_witness :
  batch_size sample_processor = 2 ∧ 0 < batch_size sample_processor.
Proof.
  destruct (constructed_processor_reads sample_create_engine sample_url
              (Some 2) None sample_processor) as (_ & _ & H & _).
  - vm_compute. reflexivity.
  - split; [reflexivity | exact H].
Defined.

Lemma reliable_run_commits_valid_rows_witness :
  history (process_file_parallel upsert_execute sample_processor sample_fs
             (mkStore ∅ []) "in.csv" swapped_pool).1
  ≡ₚ omap row_record [(0, bob); (1, abc_record); (2, x_record)].
Proof.
  destruct (reliable_run_commits_valid_rows upsert_execute history
              sample_processor sample_fs (mkStore ∅ []) "in.csv"
              [[(0, bob); (1, abc_record)]; [(2, x_record)]] swapped_pool)
    as [_ H].
  - intros e db batch. reflexivity.
  - apply upsert_execute_log.
  - vm_compute. reflexivity.
  - split; apply perm_swap.
  - exact H.
Defined.
